(** * A shallow embedding of the gremlin client session engine

    The development follows the Go package: the protocol session
    ([GremlinConnection] with [Exec], [ReadResponse], [Authenticate],
    [Reconnect], [MaintainConnection]), the credential options
    ([NewAuthInfo], [OptAuthEnv], [OptAuthUserPass]), the process-wide
    server registry ([NewCluster], [SplitServers], [CreateConnection]) and
    the tracing decorator ([GremlinTracer]).

    Go values are modelled as the code has them: a slice is a list
    together with its nil-ness, a pointer that may be nil is an option, a
    [(value, error)] result is a pair whose error component is an option.
    A call that does not return (a nil dereference, a read that blocks
    for ever) is an explicit [Outcome]. *)

From Stdlib Require Import ZArith Ascii Strings.Byte.
From stdpp Require Import base strings list gmap pretty.

Local Open Scope string_scope.
Local Open Scope list_scope.
Local Open Scope Z_scope.

(** ** Go values *)

(** The dynamic types of the [error] values the package meets:
    [errors.New], the network layer's [net.OpError], and whatever else a
    collaborator hands back. *)
Inductive error : Type :=
| errorString (msg : string)
| netOpError (detail : string)
| foreignError (detail : string).

(** The type assertion of [MaintainConnection]: is [err] a [net.OpError]? *)
Definition isNetOpError (e : error) : bool :=
  match e with
  | netOpError _ => true
  | _ => false
  end.

(** The [(value, error)] result of a collaborator: exactly one of the two. *)
Inductive result (A : Type) : Type :=
| Ok (a : A)
| Err (e : error).
Arguments Ok {A} a.
Arguments Err {A} e.

(** A slice: [None] is the nil slice, [Some l] a non-nil slice holding [l]. *)
Definition slice (A : Type) : Type := option (list A).

Definition elems {A} (s : slice A) : list A :=
  match s with
  | None => []
  | Some l => l
  end.

(** [append(s, xs...)]: with nothing to add, [s] comes back as it is (a nil
    slice stays nil); otherwise the result is a non-nil slice. *)
Definition go_append {A} (s : slice A) (xs : list A) : slice A :=
  match xs with
  | [] => s
  | _ :: _ => Some (elems s ++ xs)
  end.


(** [[]byte(s)] *)
Definition bytes_of (s : string) : list byte := String.list_byte_of_string s.

(** ** Calls that may not return *)

Inductive Outcome (A : Type) : Type :=
| Returns (a : A)
| Panics
| Blocks.
Arguments Returns {A} a.
Arguments Panics {A}.
Arguments Blocks {A}.

Definition obind {A B} (m : Outcome A) (k : A -> Outcome B) : Outcome B :=
  match m with
  | Returns a => k a
  | Panics => Panics
  | Blocks => Blocks
  end.

Declare Scope outcome_scope.
Delimit Scope outcome_scope with outcome.
Notation "'call' x ':=' m 'in' k" := (obind m (fun x => k))
  (at level 10, x pattern, m at level 100, k at level 200) : outcome_scope.
Local Open Scope outcome_scope.

Definition omap {A B} (f : A -> B) (m : Outcome A) : Outcome B :=
  call a := m in Returns (f a).

(** ** Protocol data *)

(** [url.URL], as far as the package reads it. *)
Record URL : Type := mkURL { Scheme : string; Host : string; Path : string }.

(** Modelled from the spec: the declaration of the request envelope is
    outside this file; its arguments carry the query text set by [Query]
    and the credential blob set by [Authenticate]. *)
Record RequestArgs : Type := mkRequestArgs { Gremlin : string; Sasl : string }.

Record Request : Type := mkRequest {
  RequestId : string;
  Processor : string;
  Op : string;
  Args : RequestArgs
}.

Definition RawMessage : Type := list byte.

Record ResponseStatus : Type := mkStatus { Code : Z; Message : string }.
Record ResponseResult : Type := mkResult { Data : slice byte }.
Record Response : Type := mkResponse {
  ResponseId : string;
  Status : ResponseStatus;
  Result : ResponseResult
}.

(** ** The socket

    A [websocket.Conn] is the script of what its peer will do: the
    results of the successive [ReadMessage] calls, the faults of the
    successive [WriteMessage] calls, and the log of what was written. A
    read on an exhausted [inbox] never returns. *)
Record WsConn : Type := mkWs {
  inbox : list (result (list byte));
  wfaults : list (option error);
  sent : list (list byte)
}.

Definition withInbox (ws : WsConn) (l : list (result (list byte))) : WsConn :=
  {| inbox := l; wfaults := wfaults ws; sent := sent ws |}.

Definition WriteMessage (ws : WsConn) (msg : list byte) : option error * WsConn :=
  match wfaults ws with
  | [] => (None, {| inbox := inbox ws; wfaults := []; sent := sent ws ++ [msg] |})
  | None :: fs => (None, {| inbox := inbox ws; wfaults := fs; sent := sent ws ++ [msg] |})
  | Some e :: fs => (Some e, {| inbox := inbox ws; wfaults := fs; sent := sent ws |})
  end.

Definition ReadMessage (ws : WsConn) : Outcome (result (list byte) * WsConn) :=
  match inbox ws with
  | [] => Blocks
  | r :: rest => Returns (r, withInbox ws rest)
  end.

(** ** Credentials *)

Record AuthInfo : Type := mkAuthInfo {
  ChallengeId : string;
  User : string;
  Pass : string
}.

(** The process environment, as [os.LookupEnv] sees it. *)
Abbreviation Env := (gmap string string).

(** [OptAuth], a function from a draft [AuthInfo] to an error: the closure may read the
    environment; it leaves the draft as it made it and returns its error. *)
Definition OptAuth : Type := Env -> AuthInfo -> AuthInfo * option error.

(** [&AuthInfo{}], the draft the options work on. *)
Definition draft : AuthInfo := {| ChallengeId := ""; User := ""; Pass := "" |}.

(** [os.LookupEnv] and [os.Getenv] *)
Definition LookupEnv (env : Env) (key : string) : option string := env !! key.
Definition Getenv (env : Env) (key : string) : string := default "" (env !! key).

(** Sets authentication info from the environment variables GREMLIN_USER
    and GREMLIN_PASS. *)
Definition OptAuthEnv : OptAuth := fun env auth =>
  match LookupEnv env "GREMLIN_USER" with
  | None => (auth, Some (errorString "Variable GREMLIN_USER is not set"))
  | Some user =>
      match LookupEnv env "GREMLIN_PASS" with
      | None => (auth, Some (errorString "Variable GREMLIN_PASS is not set"))
      | Some pass =>
          ({| ChallengeId := ChallengeId auth; User := user; Pass := pass |}, None)
      end
  end.

(** The error of [OptAuthEnv] when one of the two variables is unset: the
    user is looked up first. *)
Definition missingEnvError (env : Env) : error :=
  match LookupEnv env "GREMLIN_USER" with
  | None => errorString "Variable GREMLIN_USER is not set"
  | Some _ => errorString "Variable GREMLIN_PASS is not set"
  end.

(** Sets authentication information from username and password. *)
Definition OptAuthUserPass (user pass : string) : OptAuth := fun _ auth =>
  ({| ChallengeId := ChallengeId auth; User := user; Pass := pass |}, None).

(** [GremlinConnection]: [Ws] is nil when a dial has failed. *)
Record GremlinConnection : Type := mkConn {
  Remote : option URL;
  Ws : option WsConn;
  Auth : list OptAuth;
  VerboseLogging : bool
}.

Definition withWs (c : GremlinConnection) (ws : option WsConn) : GremlinConnection :=
  {| Remote := Remote c; Ws := ws; Auth := Auth c; VerboseLogging := VerboseLogging c |}.

Definition SetLogVerbosity (c : GremlinConnection) (verboseLogging : bool) : GremlinConnection :=
  {| Remote := Remote c; Ws := Ws c; Auth := Auth c; VerboseLogging := verboseLogging |}.

(** ** The network

    What a dial of an address yields, and the log of the dials made. *)
Record NetConn : Type := mkNetConn { RemoteAddr : string }.

Inductive DialEvent : Type :=
| wsDial (urlStr : string)
| tcpDial (addr : string).

Record Net : Type := mkNet {
  ws_answer : string -> result WsConn;
  tcp_answer : string -> result NetConn;
  dials : list DialEvent
}.

Definition logDial (net : Net) (d : DialEvent) : Net :=
  {| ws_answer := ws_answer net; tcp_answer := tcp_answer net;
     dials := dials net ++ [d] |}.

(** ** Collaborators

    The envelope codec, the JSON and base64 encoders, the URL parser, the
    string helpers and the status table are declared outside this file:
    the session engine is stated over any implementation of them. *)
Class Externals : Type := {
  StatusSuccess : Z;
  StatusNoContent : Z;
  StatusAuthenticate : Z;
  StatusPartialContent : Z;
  (** the four are the case labels of one switch *)
  status_distinct :
    NoDup [StatusNoContent; StatusAuthenticate; StatusPartialContent; StatusSuccess];
  (** [var ErrorMsg map[int]string] *)
  ErrorMsg : gmap Z string;
  (** [Query(query)], a request or an error *)
  Query : string -> result Request;
  (** [GraphSONSerializer(req)], the wire bytes or an error *)
  GraphSONSerializer : Request -> result (list byte);
  (** [json.Unmarshal(message, &res)] with [res] a pointer to a
      [Response]: the pointer stays nil when the message is the JSON null *)
  json_Unmarshal_Response : list byte -> result (option Response);
  (** [json.Unmarshal(data, &items)] with [items []json.RawMessage] *)
  json_Unmarshal_items : slice byte -> result (list RawMessage);
  (** [json.Marshal(dataItems)] *)
  json_Marshal_items : slice RawMessage -> result (list byte);
  (** [base64.StdEncoding.EncodeToString] *)
  base64_EncodeToString : list byte -> string;
  (** [url.Parse] *)
  url_Parse : string -> result URL;
  (** [strings.TrimSpace], [strings.Split] *)
  strings_TrimSpace : string -> string;
  strings_Split : string -> string -> list string
}.

(** ** The session engine *)

Section Session.
Context `{Externals}.

(** The process environment the credential options read. *)
Variable env : Env.

(** *** Credential options *)

(** The loop of [NewAuthInfo]: the options are applied in order to the
    same draft; the first error ends it. *)
Fixpoint applyOptions (options : list OptAuth) (auth : AuthInfo)
  : option AuthInfo * option error :=
  match options with
  | [] => (Some auth, None)
  | op :: rest =>
      match op env auth with
      | (_, Some err) => (None, Some err)
      | (auth', None) => applyOptions rest auth'
      end
  end.

Definition NewAuthInfo (options : list OptAuth) : option AuthInfo * option error :=
  let auth := draft in
  applyOptions options auth.

(** *** Exec, ReadResponse, Authenticate

    [ReadResponse] calls [Authenticate], which calls [Exec], which calls
    [ReadResponse] again: the two callers are written first, over the
    read path they re-enter. *)

Definition Reply : Type := (slice byte * option error) * GremlinConnection.

(** [Exec]: the write is a method call on [c.Ws]; on the nil handle it
    dereferences nil and the call panics. The [print] of a failed write
    goes to standard error and is not modelled. *)
Definition Exec_over (ReadResponse : GremlinConnection -> Outcome Reply)
    (c : GremlinConnection) (req : Request) : Outcome Reply :=
  match GraphSONSerializer req with
  | Err err => Returns ((None, Some err), c)
  | Ok requestMessage =>
      match Ws c with
      | None => Panics
      | Some ws =>
          let '(werr, ws') := WriteMessage ws requestMessage in
          let c' := withWs c (Some ws') in
          match werr with
          | Some err => Returns ((None, Some err), c')
          | None => ReadResponse c'
          end
      end
  end.

(** The SASL blob of [Authenticate]. *)
Definition saslBlob (auth : AuthInfo) : list byte :=
  ([x00] ++ bytes_of (User auth)) ++ [x00] ++ bytes_of (Pass auth).

Definition Authenticate_over (ReadResponse : GremlinConnection -> Outcome Reply)
    (c : GremlinConnection) (requestId : string) : Outcome Reply :=
  match NewAuthInfo (Auth c) with
  | (_, Some err) => Returns ((None, Some err), c)
  | (None, None) => Panics
  | (Some auth, None) =>
      let saslEnc := base64_EncodeToString (saslBlob auth) in
      let args := {| Gremlin := ""; Sasl := saslEnc |} in
      let authReq := {| RequestId := requestId;
                        Processor := "trasversal";
                        Op := "authentication";
                        Args := args |} in
      Exec_over ReadResponse c authReq
  end.

(** The error of a frame whose status is none of the four known ones. *)
Definition statusError (c : GremlinConnection) (res : Response) : error :=
  match ErrorMsg !! Code (Status res) with
  | None => errorString "An unknown error occured"
  | Some msg =>
      if negb (VerboseLogging c) then errorString msg
      else errorString
             (pretty (Code (Status res)) +:+ " error: " +:+ msg
              +:+ ". See additional details below:"
              +:+ String (Ascii.ascii_of_nat 10) "Message: "
              +:+ Message (Status res))
  end.

(** The read loop of [ReadResponse], by recursion on what the socket
    still has to deliver; [inBatchMode] and [dataItems] are its two
    loop variables. A message that is the JSON null leaves [res] nil, and
    reading its status dereferences nil. *)
Fixpoint readLoop (frames : list (result (list byte))) (ws : WsConn)
    (c : GremlinConnection) (inBatchMode : bool) (dataItems : slice RawMessage)
    {struct frames} : Outcome Reply :=
  match frames with
  | [] => Blocks
  | rd :: frames' =>
      let c := withWs c (Some (withInbox ws frames')) in
      match rd with
      | Err err => Returns ((None, Some err), c)
      | Ok message =>
          match json_Unmarshal_Response message with
          | Err err => Returns ((None, Some err), c)
          | Ok None => Panics
          | Ok (Some res) =>
              let code := Code (Status res) in
              if decide (code = StatusNoContent) then
                Returns ((None, None), c)
              else if decide (code = StatusAuthenticate) then
                Authenticate_over
                  (fun c2 => match Ws c2 with
                             | None => Panics
                             | Some ws2 => readLoop frames' ws2 c2 false None
                             end)
                  c (ResponseId res)
              else if decide (code = StatusPartialContent) then
                match json_Unmarshal_items (Data (Result res)) with
                | Err err => Returns ((None, Some err), c)
                | Ok items =>
                    readLoop frames' (withInbox ws frames') c true
                      (go_append dataItems items)
                end
              else if decide (code = StatusSuccess) then
                if inBatchMode then
                  match json_Unmarshal_items (Data (Result res)) with
                  | Err err => Returns ((None, Some err), c)
                  | Ok items =>
                      match json_Marshal_items (go_append dataItems items) with
                      | Ok data => Returns ((Some data, None), c)
                      | Err err => Returns ((None, Some err), c)
                      end
                  end
                else Returns ((Data (Result res), None), c)
              else Returns ((None, Some (statusError c res)), c)
          end
      end
  end.

Definition ReadResponse (c : GremlinConnection) : Outcome Reply :=
  match Ws c with
  | None => Panics
  | Some ws => readLoop (inbox ws) ws c false None
  end.

Definition Exec (c : GremlinConnection) (req : Request) : Outcome Reply :=
  Exec_over ReadResponse c req.

Definition Authenticate (c : GremlinConnection) (requestId : string) : Outcome Reply :=
  Authenticate_over ReadResponse c requestId.

Definition ExecQuery (c : GremlinConnection) (query : string) : Outcome Reply :=
  match Query query with
  | Err err => Returns ((None, Some err), c)
  | Ok req => Exec c req
  end.

(** A frame with the given status whose data decodes to [items]. *)
Definition frameOf (code : Z) (message : list byte) (items : list RawMessage) : Prop :=
  exists res,
    json_Unmarshal_Response message = Ok (Some res) /\
    Code (Status res) = code /\
    json_Unmarshal_items (Data (Result res)) = Ok items.


(** *** Dialling *)

(** [dialer.Dial(urlStr, http.Header{})]: the socket is nil exactly when
    the error is not. *)
Definition Dial (net : Net) (urlStr : string) : (option WsConn * option error) * Net :=
  let net' := logDial net (wsDial urlStr) in
  match ws_answer net urlStr with
  | Ok ws => ((Some ws, None), net')
  | Err err => ((None, Some err), net')
  end.

Definition NewGremlinConnection (urlStr : string) (options : list OptAuth) (net : Net)
  : (option GremlinConnection * option error) * Net :=
  match url_Parse urlStr with
  | Err err => ((None, Some err), net)
  | Ok r =>
      let '((ws, err), net') := Dial net urlStr in
      match err with
      | Some e => ((None, Some e), net')
      | None =>
          ((Some {| Remote := Some r; Ws := ws; Auth := options;
                    VerboseLogging := false |}, None), net')
      end
  end.

Definition Reconnect (c : GremlinConnection) (urlStr : string) (net : Net)
  : (option error * GremlinConnection) * Net :=
  let '((ws, err), net') := Dial net urlStr in
  let c := withWs c ws in
  ((err, c), net').

(** Sends a dummy query; on a network error, attempts to reconnect. *)
Definition MaintainConnection (c : GremlinConnection) (urlStr : string) (net : Net)
  : Outcome ((option error * GremlinConnection) * Net) :=
  let simpleQuery := "g.V().limit(0)" in
  call ((_, err), c) := ExecQuery c simpleQuery in
  match err with
  | None => Returns ((None, c), net)
  | Some e =>
      let isNetErr := isNetOpError e in
      if negb isNetErr then Returns ((Some e, c), net)
      else
        let '((err, c), net) := Reconnect c urlStr net in
        match err with
        | Some e' => Returns ((Some e', c), net)
        | None => Returns ((None, c), net)
        end
  end.

End Session.

(** ** The server registry *)

Section Cluster.
Context `{Externals}.

(** The loop shared by [NewCluster] and [SplitServers]: every entry is
    parsed and appended to [servers]; the first parse error returns with
    what has been appended so far. *)
Fixpoint parseEach (prep : string -> string) (entries : list string)
    (servers : list URL) : list URL * option error :=
  match entries with
  | [] => (servers, None)
  | v :: rest =>
      match url_Parse (prep v) with
      | Err err => (servers, Some err)
      | Ok u => parseEach prep rest (servers ++ [u])
      end
  end.

Definition SplitServers (connString : string) : list URL * option error :=
  let serverStrings := strings_Split connString "," in
  if decide (length serverStrings < 1)%nat then
    ([], Some (errorString "Connection string is not in expected format. An example of the expected format is 'ws://server1:8182, ws://server2:8182'."))
  else parseEach strings_TrimSpace serverStrings [].

(** [NewCluster]: the last argument is the package variable [servers]
    before the call, the first component of the result is that variable
    after it. *)
Definition NewCluster (s : list string) (env : Env) (servers : list URL)
  : list URL * option error :=
  let servers : list URL := [] in
  if decide (length s = 0)%nat then
    let connString := strings_TrimSpace (Getenv env "GREMLIN_SERVERS") in
    if decide (connString = "") then
      (servers, Some (errorString "No servers set. Configure servers to connect to using the GREMLIN_SERVERS environment variable."))
    else SplitServers connString
  else parseEach (fun v => v) s servers.

(** The registry is not partially committed: when an entry of [s] does
    not parse, [NewCluster] returns an error and no address parsed from
    an entry of [s] is in the registry afterwards. *)
Definition NewCluster_commits_nothing_on_failure : Prop :=
  forall s env servers,
    (exists v e, v ∈ s /\ url_Parse v = Err e) ->
    (NewCluster s env servers).2 <> None /\
    (forall v u, v ∈ s -> url_Parse v = Ok u -> u ∉ (NewCluster s env servers).1).

(** The network after dials of [hosts], one after the other. *)
Definition attempts (net : Net) (hosts : list string) : Net :=
  foldl (fun n h => logDial n (tcpDial h)) net hosts.

(** A server whose dial fails. *)
Definition unreachable (net : Net) (s : URL) : Prop :=
  exists e, tcp_answer net (Host s) = Err e.

(** [net.DialTimeout("tcp", addr, 1*time.Second)] *)
Definition DialTimeout (net : Net) (addr : string) : result NetConn * Net :=
  (tcp_answer net addr, logDial net (tcpDial addr)).

(** The loop of [CreateConnection]: a failed dial goes on to the next
    server, the first successful one breaks out. *)
Fixpoint dialFirst (servers : list URL) (net : Net) : option (NetConn * URL) * Net :=
  match servers with
  | [] => (None, net)
  | s :: rest =>
      match DialTimeout net (Host s) with
      | (Err _, net') => dialFirst rest net'
      | (Ok c, net') => (Some (c, s), net')
      end
  end.

Definition errNoConnection : error :=
  errorString "Could not establish connection. Please check your connection string and ensure at least one server is up.".

Definition CreateConnection (servers : list URL) (net : Net)
  : (option NetConn * option URL * option error) * Net :=
  match dialFirst servers net with
  | (Some (c, s), net') => ((Some c, Some s, None), net')
  | (None, net') => ((None, None, Some errNoConnection), net')
  end.

End Cluster.

(** ** The tracing decorator *)

(** [context.Context], [opentracing.Span] and its [SpanContext], the query
    and interval types of the call surface, with the accessors the
    decorator uses; [OpNameFromContext] and [CoalesceStrings] are helpers
    of the package declared outside this file. *)
Class TracingAPI : Type := {
  context_Context : Type;
  Span : Type;
  SpanContext : Type;
  GremlinQuery : Type;
  Duration : Type;
  SpanFromContext : context_Context -> option Span;
  ContextWithSpan : context_Context -> Span -> context_Context;
  Span_Context : Span -> SpanContext;
  OpNameFromContext : context_Context -> string;
  CoalesceStrings : list string -> string
}.

(** [GremlinTracer]: the wrapped component and the tracer, each with its
    state. *)
Record GremlinTracer (S T : Type) : Type :=
  mkGremlinTracer { next : S; tracer : T }.
Arguments mkGremlinTracer {S T} next tracer.
Arguments next {S T} g.
Arguments tracer {S T} g.

Section Tracing.
Context `{TracingAPI}.

Inductive StartSpanOption : Type :=
| Tags (kv : list (string * string))
| ChildOf (parent : SpanContext).

(** [opentracing.Tracer]: starting a span and finishing it act on the
    tracer's own state [T]. *)
Class Tracer (T : Type) : Type := {
  StartSpan : T -> string -> list StartSpanOption -> Span * T;
  Finish : Span -> T -> T
}.

(** [Gremlin_i], the call surface shared by the session and its
    decorator, over the state [S] of the implementation. *)
Class Gremlin_i (S : Type) : Type := {
  ExecQueryF : context_Context -> GremlinQuery -> S
               -> Outcome ((string * option error) * S);
  StartMonitor : context_Context -> Duration -> S -> Outcome (option error * S);
  Close : context_Context -> S -> Outcome (option error * S)
}.

Definition NewGremlinTracer {S T} (next : S) (tracer : T) : GremlinTracer S T :=
  {| next := next; tracer := tracer |}.

Definition StartSpanFromParent {T} `{Tracer T} (ctx : context_Context) (tracer : T)
    (method : string) (opts : list StartSpanOption)
  : (Span * context_Context) * T :=
  let parent := SpanFromContext ctx in
  let opts :=
    match parent with
    | Some p => opts ++ [ChildOf (Span_Context p)]
    | None => opts
    end in
  let '(span, tracer) := StartSpan tracer method opts in
  ((span, ContextWithSpan ctx span), tracer).

(** [defer span.Finish()] around the call of the wrapped component: the
    span is finished when the call returns and when it panics; a call
    that never returns never reaches it. *)
Definition deferFinish {S T A} `{Tracer T} (span : Span) (tracer : T)
    (r : Outcome (A * S)) : Outcome (A * GremlinTracer S T) :=
  match r with
  | Returns (a, next') =>
      Returns (a, {| next := next'; tracer := Finish span tracer |})
  | Panics => Panics
  | Blocks => Blocks
  end.

Definition GremlinTracer_ExecQueryF {S T} `{Gremlin_i S} `{Tracer T}
    (ctx : context_Context) (gremlinQuery : GremlinQuery) (g : GremlinTracer S T)
  : Outcome ((string * option error) * GremlinTracer S T) :=
  let method := CoalesceStrings [OpNameFromContext ctx; "Gremlin.ExecQueryF"] in
  let '((span, _), tracer) :=
    StartSpanFromParent ctx (tracer g) method [Tags [("type", "gremlin")]] in
  deferFinish span tracer (ExecQueryF ctx gremlinQuery (next g)).

Definition GremlinTracer_StartMonitor {S T} `{Gremlin_i S} `{Tracer T}
    (ctx : context_Context) (interval : Duration) (g : GremlinTracer S T)
  : Outcome (option error * GremlinTracer S T) :=
  let method := CoalesceStrings [OpNameFromContext ctx; "Gremlin.StartMonitor"] in
  let '((span, _), tracer) :=
    StartSpanFromParent ctx (tracer g) method [Tags [("type", "gremlin")]] in
  deferFinish span tracer (StartMonitor ctx interval (next g)).

Definition GremlinTracer_Close {S T} `{Gremlin_i S} `{Tracer T}
    (ctx : context_Context) (g : GremlinTracer S T)
  : Outcome (option error * GremlinTracer S T) :=
  let method := CoalesceStrings [OpNameFromContext ctx; "Gremlin.Close"] in
  let '((span, _), tracer) :=
    StartSpanFromParent ctx (tracer g) method [Tags [("type", "gremlin")]] in
  deferFinish span tracer (Close ctx (next g)).

(** The decorator has the call surface of what it wraps. *)
#[export] Instance GremlinTracer_Gremlin_i {S T} `{Gremlin_i S} `{Tracer T}
  : Gremlin_i (GremlinTracer S T) := {
  ExecQueryF := GremlinTracer_ExecQueryF;
  StartMonitor := GremlinTracer_StartMonitor;
  Close := GremlinTracer_Close
}.

(** What a caller of the decorator can tell about the wrapped
    component: the returned values and the component's own state. *)
Definition observe {S T A} (r : Outcome (A * GremlinTracer S T)) : Outcome (A * S) :=
  omap (fun '(a, g) => (a, next g)) r.

End Tracing.

(** ** A reference implementation of the collaborators

    A small line format stands in for GraphSON on the wire: a reply frame
    reads [code|requestId|data], a data fragment is a bracketed,
    comma-separated list of atoms. It is what the worked runs below are
    evaluated against. *)
Module Reference.

Fixpoint split_on (sep : ascii) (s : string) : list string :=
  match s with
  | EmptyString => [EmptyString]
  | String ch rest =>
      match split_on sep rest with
      | [] => []
      | hd :: tl =>
          if Ascii.eqb ch sep then EmptyString :: hd :: tl
          else String ch hd :: tl
      end
  end.

Definition Split (s sep : string) : list string :=
  match sep with
  | String ch EmptyString => split_on ch s
  | _ => [s]
  end.

Definition is_space (a : ascii) : bool :=
  let n := Ascii.nat_of_ascii a in
  ((n =? 32) || ((9 <=? n) && (n <=? 13)))%nat.

Fixpoint trim_left (s : string) : string :=
  match s with
  | String ch rest => if is_space ch then trim_left rest else s
  | EmptyString => EmptyString
  end.

Fixpoint trim_right (s : string) : string :=
  match s with
  | EmptyString => EmptyString
  | String ch rest =>
      match trim_right rest with
      | EmptyString => if is_space ch then EmptyString else String ch EmptyString
      | r => String ch r
      end
  end.

Definition TrimSpace (s : string) : string := trim_right (trim_left s).

Fixpoint parse_digits (s : string) (acc : Z) : option Z :=
  match s with
  | EmptyString => Some acc
  | String ch rest =>
      let n := Ascii.nat_of_ascii ch in
      if ((48 <=? n) && (n <=? 57))%nat
      then parse_digits rest (10 * acc + Z.of_nat (n - 48))
      else None
  end.

Definition text (b : list byte) : string := String.string_of_list_byte b.

Definition Unmarshal_Response (message : list byte) : result (option Response) :=
  if decide (text message = "null") then Ok None
  else
    match split_on "|" (text message) with
    | [code; rid; data] =>
        match parse_digits code 0 with
        | Some z =>
            Ok (Some {| ResponseId := rid;
                        Status := {| Code := z; Message := "" |};
                        Result := {| Data := if decide (data = "") then None
                                             else Some (bytes_of data) |} |})
        | None => Err (foreignError "invalid status code")
        end
    | _ => Err (foreignError "invalid frame")
    end.

(** The atoms between the brackets of [[a,b,c]]. *)
Definition atoms (s : string) : option (list string) :=
  match s with
  | String "[" rest =>
      match String.rev rest with
      | String "]" inner => 
          if decide (inner = "") then Some []
          else Some (split_on "," (String.rev inner))
      | _ => None
      end
  | _ => None
  end.

Definition Unmarshal_items (data : slice byte) : result (list RawMessage) :=
  match data with
  | None => Err (foreignError "unexpected end of JSON input")
  | Some b =>
      if decide (text b = "null") then Ok []
      else
        match atoms (text b) with
        | Some l => Ok (bytes_of <$> l)
        | None => Err (foreignError "cannot unmarshal into a slice")
        end
  end.

(** A nil slice is written as the JSON null, any other as an array. *)
Definition Marshal_items (items : slice RawMessage) : result (list byte) :=
  match items with
  | None => Ok (bytes_of "null")
  | Some l => Ok (bytes_of ("[" +:+ String.concat "," (text <$> l) +:+ "]"))
  end.

(** Standard base64 with padding. *)
Definition alphabet : string :=
  "ABCDEFGHIJKLMNOPQRSTUVWXYZabcdefghijklmnopqrstuvwxyz0123456789+/".

Definition sextet (n : Z) : ascii :=
  match String.get (Z.to_nat (Z.land n 63)) alphabet with
  | Some a => a
  | None => "="%char
  end.

Definition octet (b : byte) : Z := Z.of_N (Byte.to_N b).

Fixpoint base64 (l : list byte) : string :=
  match l with
  | [] => ""
  | [a] =>
      let n := Z.shiftl (octet a) 16 in
      String (sextet (Z.shiftr n 18)) (String (sextet (Z.shiftr n 12)) "==")
  | [a; b] =>
      let n := Z.lor (Z.shiftl (octet a) 16) (Z.shiftl (octet b) 8) in
      String (sextet (Z.shiftr n 18)) (String (sextet (Z.shiftr n 12))
        (String (sextet (Z.shiftr n 6)) "="))
  | a :: b :: c :: rest =>
      let n := Z.lor (Z.lor (Z.shiftl (octet a) 16) (Z.shiftl (octet b) 8)) (octet c) in
      String (sextet (Z.shiftr n 18)) (String (sextet (Z.shiftr n 12))
        (String (sextet (Z.shiftr n 6)) (String (sextet n) (base64 rest))))
  end.

(** A locator [scheme://host/path]; a leading colon has no scheme to
    stand for and is refused. *)
Fixpoint upto_slash (s : string) : string * string :=
  match s with
  | EmptyString => ("", "")
  | String ch rest =>
      if Ascii.eqb ch "/" then ("", s)
      else let '(h, p) := upto_slash rest in (String ch h, p)
  end.

Fixpoint scheme_of (s : string) : option (string * string) :=
  match s with
  | String ":" (String "/" (String "/" rest)) => Some ("", rest)
  | String ch rest =>
      match scheme_of rest with
      | Some (sc, r) => Some (String ch sc, r)
      | None => None
      end
  | EmptyString => None
  end.

Definition Parse (rawurl : string) : result URL :=
  match rawurl with
  | String ":" _ => Err (foreignError "missing protocol scheme")
  | _ =>
      match scheme_of rawurl with
      | Some (sc, rest) =>
          let '(h, p) := upto_slash rest in
          Ok {| Scheme := sc; Host := h; Path := p |}
      | None => Ok {| Scheme := ""; Host := ""; Path := rawurl |}
      end
  end.

Definition Serializer (req : Request) : result (list byte) :=
  Ok (bytes_of (Op req +:+ "|" +:+ Processor req +:+ "|" +:+ RequestId req
                +:+ "|" +:+ Gremlin (Args req) +:+ "|" +:+ Sasl (Args req))).

Definition MakeQuery (query : string) : result Request :=
  if decide (query = "") then Err (errorString "empty query")
  else Ok {| RequestId := "1cb704ed-0000-4000-8000-000000000001";
             Processor := ""; Op := "eval";
             Args := {| Gremlin := query; Sasl := "" |} |}.

Definition Messages : gmap Z string :=
  {[ 401 := "Unauthorized"; 498 := "Malformed Request";
     500 := "Server Error"; 597 := "Script Evaluation Error" ]}.

#[export] Instance externals : Externals := {
  StatusSuccess := 200;
  StatusNoContent := 204;
  StatusAuthenticate := 407;
  StatusPartialContent := 206;
  status_distinct :=
    ltac:(repeat (apply NoDup_cons; split;
                  [rewrite ?elem_of_cons, elem_of_nil; lia |]);
          apply NoDup_nil_2);
  ErrorMsg := Messages;
  Query := MakeQuery;
  GraphSONSerializer := Serializer;
  json_Unmarshal_Response := Unmarshal_Response;
  json_Unmarshal_items := Unmarshal_items;
  json_Marshal_items := Marshal_items;
  base64_EncodeToString := base64;
  url_Parse := Parse;
  strings_TrimSpace := TrimSpace;
  strings_Split := Split
}.

Definition frame (s : string) : result (list byte) := Ok (bytes_of s).

(** A live socket whose peer will deliver [frames]. *)
Definition socket (frames : list (result (list byte))) : WsConn :=
  {| inbox := frames; wfaults := []; sent := [] |}.

Definition session (auth : list OptAuth) (frames : list (result (list byte)))
  : GremlinConnection :=
  {| Remote := None; Ws := Some (socket frames); Auth := auth;
     VerboseLogging := false |}.

Definition b (s : string) : list byte := bytes_of s.



(** A network on which every dial is refused. *)
Definition refused : Net :=
  {| ws_answer := fun _ => Err (netOpError "dial tcp: connection refused");
     tcp_answer := fun _ => Err (netOpError "dial tcp: connection refused");
     dials := [] |}.

(** A network on which the websocket endpoint answers and, of the TCP
    hosts, only b:8182 does. *)
Definition answering : Net :=
  {| ws_answer := fun _ => Ok (socket []);
     tcp_answer := fun h => if decide (h = "b:8182") then Ok {| RemoteAddr := h |}
                            else Err (netOpError "i/o timeout");
     dials := [] |}.

(** The request [MakeQuery] builds for the probe query. *)
Definition probe : Request :=
  {| RequestId := "1cb704ed-0000-4000-8000-000000000001"; Processor := "";
     Op := "eval"; Args := {| Gremlin := "g.V().limit(0)"; Sasl := "" |} |}.

(** A context is a parent span, if any, and an operation name; a span is
    its operation name; the tracer records what is started and finished. *)
#[export] Instance tracingAPI : TracingAPI := {
  context_Context := option string * string;
  Span := string;
  SpanContext := string;
  GremlinQuery := string;
  Duration := Z;
  SpanFromContext := fun ctx => ctx.1;
  ContextWithSpan := fun ctx span => (Some span, ctx.2);
  Span_Context := fun span => span;
  OpNameFromContext := fun ctx => ctx.2;
  CoalesceStrings := fun l => default "" (head (filter (fun x => x <> "") l))
}.

Inductive TraceEvent : Type :=
| started (method : string) (opts : list StartSpanOption)
| finished (method : string).

#[export] Instance recorder : Tracer (list TraceEvent) := {
  StartSpan := fun t method opts => (method, t ++ [started method opts]);
  Finish := fun span t => t ++ [finished span]
}.

(** A component that counts its calls and whose server is down. *)
#[export] Instance unavailable : Gremlin_i nat := {
  ExecQueryF := fun _ _ n => Returns (("", Some (errorString "server down")), S n);
  StartMonitor := fun _ _ n => Returns (Some (errorString "server down"), S n);
  Close := fun _ n => Returns (None, S n)
}.

(** A session with credentials whose server sends part of a batch, then
    a challenge, then the answer and one frame more. *)
Definition challenged : GremlinConnection :=
  session [OptAuthUserPass "user" "pass"]
          [frame "206|r7|[1,2]"; frame "407|r7|"; frame "200|r7|[3]"; frame "204|r8|"].

(** An environment with both credential variables, and one with a server
    list. *)
Definition withCredentials : Env :=
  {[ "GREMLIN_USER" := "neo"; "GREMLIN_PASS" := "trinity" ]}.

Definition withServers : Env :=
  {[ "GREMLIN_SERVERS" := " ws://a:8182, ws://b:8182 " ]}.

End Reference.

(** ** Further operations and observations *)

Section Verbose.
Context `{Externals}.

(** [NewVerboseGremlinConnection]: the verbosity is set through the
    pointer [NewGremlinConnection] returned with a nil error. *)
Definition NewVerboseGremlinConnection (urlStr : string) (verboseLogging : bool)
    (options : list OptAuth) (net : Net)
  : Outcome ((option GremlinConnection * option error) * Net) :=
  let '((conn, err), net') := NewGremlinConnection urlStr options net in
  match err with
  | Some e => Returns ((None, Some e), net')
  | None =>
      match conn with
      | None => Panics
      | Some c => Returns ((Some (SetLogVerbosity c verboseLogging), None), net')
      end
  end.

End Verbose.

Section AsWorded.
Context `{Externals}.




End AsWorded.

(** What a call may have done to the session it was given: the settings
    are the same, a socket is still a socket, the bytes sent are the old
    ones followed by [written], and the frames still to be read are the
    old ones without the leading [consumed]. *)
Definition sessionAfter (c c' : GremlinConnection)
    (written : list (list byte)) (consumed : list (result (list byte))) : Prop :=
  Remote c' = Remote c /\
  Auth c' = Auth c /\
  VerboseLogging c' = VerboseLogging c /\
  match Ws c, Ws c' with
  | Some ws, Some ws' =>
      sent ws' = sent ws ++ written /\ inbox ws = consumed ++ inbox ws'
  | None, None => written = [] /\ consumed = []
  | _, _ => False
  end.

(** What a caller sees of a reply whatever the verbosity: the data,
    whether there is an error, and the socket. *)
Definition outline (r : Outcome Reply) : Outcome (slice byte * bool * option WsConn) :=
  omap (fun '((data, err), c) => (data, bool_decide (err <> None), Ws c)) r.

(** The options passed to the tracer by a decorated call. *)
Definition spanOptions `{TracingAPI} (ctx : context_Context) : list StartSpanOption :=
  [Tags [("type", "gremlin")]]
  ++ match SpanFromContext ctx with
     | Some parent => [ChildOf (Span_Context parent)]
     | None => []
     end.

(** * Properties *)

(** ** Slices *)




(** ** The status switch *)

Section StatusCodes.
Context `{Externals}.

Lemma status_neq :
  StatusAuthenticate <> StatusNoContent /\
  StatusPartialContent <> StatusNoContent /\
  StatusPartialContent <> StatusAuthenticate /\
  StatusSuccess <> StatusNoContent /\
  StatusSuccess <> StatusAuthenticate /\
  StatusSuccess <> StatusPartialContent.
Proof.
  pose proof status_distinct as D.
  rewrite !NoDup_cons, !elem_of_cons, elem_of_nil in D.
  repeat split; intros E; rewrite E in D; tauto.
Qed.

End StatusCodes.

(** Settles the tests of the status switch once the code of the frame is
    one of the four known ones. *)
Ltac switch_status :=
  let N := fresh "N" in
  pose proof status_neq as N;
  repeat first
    [ rewrite decide_True by reflexivity
    | rewrite decide_False by tauto ];
  clear N.

(** ** The read loop *)

Section ReadLoopFacts.
Context `{Externals}.
Variable env : Env.

(** The loop reads its socket and its session only through the fields
    it does not overwrite. *)
Lemma readLoop_ext frames ws c l x inBatchMode dataItems :
  readLoop env frames (withInbox ws l) (withWs c x) inBatchMode dataItems
  = readLoop env frames ws c inBatchMode dataItems.
Proof. destruct frames; reflexivity. Qed.

Lemma readLoop_partial message items rest ws c inBatchMode dataItems :
  frameOf StatusPartialContent message items ->
  readLoop env (Ok message :: rest) ws c inBatchMode dataItems
  = readLoop env rest ws c true (go_append dataItems items).
Proof.
  intros (res & Hres & Hcode & Hitems).
  simpl. rewrite Hres, Hcode. switch_status.
  rewrite Hitems. apply readLoop_ext.
Qed.

Lemma readLoop_partials messages batches :
  Forall2 (frameOf StatusPartialContent) messages batches ->
  forall rest ws c inBatchMode dataItems,
    readLoop env ((Ok <$> messages) ++ rest) ws c inBatchMode dataItems
    = readLoop env rest ws c
        (if messages is [] then inBatchMode else true)
        (foldl go_append dataItems batches).
Proof.
  induction 1 as [|m b ms bs Hm Hms IH]; intros rest ws c inBatchMode dataItems.
  - reflexivity.
  - rewrite fmap_cons, <- app_comm_cons.
    rewrite (readLoop_partial _ _ _ _ _ _ _ Hm), IH.
    destruct ms; reflexivity.
Qed.

Lemma readLoop_success message res rest ws c inBatchMode dataItems :
  json_Unmarshal_Response message = Ok (Some res) ->
  Code (Status res) = StatusSuccess ->
  readLoop env (Ok message :: rest) ws c inBatchMode dataItems
  = let c' := withWs c (Some (withInbox ws rest)) in
    if inBatchMode then
      match json_Unmarshal_items (Data (Result res)) with
      | Err err => Returns ((None, Some err), c')
      | Ok items =>
          match json_Marshal_items (go_append dataItems items) with
          | Ok data => Returns ((Some data, None), c')
          | Err err => Returns ((None, Some err), c')
          end
      end
    else Returns ((Data (Result res), None), c').
Proof.
  intros Hres Hcode.
  simpl. rewrite Hres, Hcode. switch_status.
  reflexivity.
Qed.




(** C7. When the first frame the socket delivers is a success frame,
    [ReadResponse] returns that frame's result data as it stands, with
    no error: neither the item decoder nor the encoder is consulted. *)
Theorem ReadResponse_first_success_verbatim c ws message res rest :
  Ws c = Some ws ->
  inbox ws = Ok message :: rest ->
  json_Unmarshal_Response message = Ok (Some res) ->
  Code (Status res) = StatusSuccess ->
  ReadResponse env c
  = Returns ((Data (Result res), None), withWs c (Some (withInbox ws rest))).
Proof.
  intros Hws Hinbox Hres Hcode.
  unfold ReadResponse. rewrite Hws, Hinbox.
  rewrite (readLoop_success _ _ _ _ _ _ _ Hres Hcode). reflexivity.
Qed.

Lemma readLoop_error_nil_data frames :
  forall ws c inBatchMode dataItems data err c',
    readLoop env frames ws c inBatchMode dataItems = Returns ((data, Some err), c') ->
    data = None.
Proof.
  induction frames as [|rd frames IH];
    intros ws c inBatchMode dataItems data err c' Hrun; simpl in Hrun.
  - discriminate.
  - unfold Authenticate_over, Exec_over in Hrun.
    repeat (case_match; simplify_eq/=); try done; eauto.
Qed.

(** C10. Whenever [ReadResponse] returns an error, the data it returns
    with it is nil, whatever was aggregated before. *)
Theorem ReadResponse_error_nil_data c data err c' :
  ReadResponse env c = Returns ((data, Some err), c') -> data = None.
Proof.
  unfold ReadResponse. destruct (Ws c) as [ws|]; [|discriminate].
  apply readLoop_error_nil_data.
Qed.

End ReadLoopFacts.

(** ** Authentication *)

Section AuthFacts.
Context `{Externals}.
Variable env : Env.

(** [NewAuthInfo] returns a draft or an error, never both, never neither. *)
Lemma applyOptions_shape options auth :
  (exists a, applyOptions env options auth = (Some a, None)) \/
  (exists e, applyOptions env options auth = (None, Some e)).
Proof.
  revert auth. induction options as [|op rest IH]; intros auth; simpl.
  - left. eauto.
  - destruct (op env auth) as [auth' [e|]]; [right; eauto | apply IH].
Qed.

Lemma applyOptions_first_error pre op post auth a1 e :
  applyOptions env pre auth = (Some a1, None) ->
  (op env a1).2 = Some e ->
  applyOptions env (pre ++ op :: post) auth = (None, Some e).
Proof.
  revert auth. induction pre as [|p pre IH]; intros auth Hpre Hop; simpl in *.
  - simplify_eq. destruct (op env a1) as [a2 oe]. simpl in Hop. subst oe.
    reflexivity.
  - destruct (p env auth) as [auth' [e'|]]; [discriminate | eauto].
Qed.

Lemma applyOptions_error_split options auth e :
  applyOptions env options auth = (None, Some e) ->
  exists pre op post a1,
    options = pre ++ op :: post /\
    applyOptions env pre auth = (Some a1, None) /\
    (op env a1).2 = Some e.
Proof.
  revert auth. induction options as [|op rest IH]; intros auth Hrun; simpl in Hrun.
  - discriminate.
  - destruct (op env auth) as [auth' [e'|]] eqn:Hop.
    + simplify_eq. exists [], op, rest, auth. rewrite Hop. auto.
    + destruct (IH _ Hrun) as (pre & op' & post & a1 & -> & Hpre & Hfail).
      exists (op :: pre), op', post, a1. simpl. rewrite Hop. auto.
Qed.

(** An option that fails on every draft makes the whole list fail. *)
Lemma applyOptions_failing_member options op auth :
  op ∈ options ->
  (forall a, exists e, (op env a).2 = Some e) ->
  exists e, applyOptions env options auth = (None, Some e).
Proof.
  intros Hin Hfail. revert auth.
  induction options as [|op0 rest IH]; intros auth; simpl.
  - inversion Hin.
  - destruct (op0 env auth) as [auth' [e|]] eqn:Hop0; [eauto |].
    apply elem_of_cons in Hin as [->|Hin]; [| auto].
    destruct (Hfail auth) as [e He]. rewrite Hop0 in He. discriminate.
Qed.

Lemma OptAuthEnv_missing auth :
  LookupEnv env "GREMLIN_USER" = None \/ LookupEnv env "GREMLIN_PASS" = None ->
  OptAuthEnv env auth = (auth, Some (missingEnvError env)).
Proof.
  unfold OptAuthEnv, missingEnvError. intros [Hu|Hp].
  - rewrite Hu. reflexivity.
  - rewrite Hp. destruct (LookupEnv env "GREMLIN_USER"); reflexivity.
Qed.

Lemma OptAuthEnv_present auth user pass :
  LookupEnv env "GREMLIN_USER" = Some user ->
  LookupEnv env "GREMLIN_PASS" = Some pass ->
  OptAuthEnv env auth
  = ({| ChallengeId := ChallengeId auth; User := user; Pass := pass |}, None).
Proof. unfold OptAuthEnv. intros -> ->. reflexivity. Qed.

(** The credentials the two sources configure. *)
Lemma NewAuthInfo_UserPass user pass :
  NewAuthInfo env [OptAuthUserPass user pass]
  = (Some {| ChallengeId := ""; User := user; Pass := pass |}, None).
Proof. reflexivity. Qed.

Lemma NewAuthInfo_Env user pass :
  LookupEnv env "GREMLIN_USER" = Some user ->
  LookupEnv env "GREMLIN_PASS" = Some pass ->
  NewAuthInfo env [OptAuthEnv]
  = (Some {| ChallengeId := ""; User := user; Pass := pass |}, None).
Proof.
  intros Hu Hp. unfold NewAuthInfo. simpl.
  rewrite (OptAuthEnv_present _ _ _ Hu Hp). reflexivity.
Qed.

(** C6. With the environment as a credential source and GREMLIN_USER or
    GREMLIN_PASS unset, [NewAuthInfo] yields no [AuthInfo] and the
    error of the first option that fails, the options before it having
    been applied in order; [Authenticate] returns that error with nil
    data and leaves the session, its socket included, as it was:
    nothing is written and nothing is read. When the environment is
    the only source the error names the missing variable. *)
Theorem Authenticate_env_credentials_missing c requestId :
  LookupEnv env "GREMLIN_USER" = None \/ LookupEnv env "GREMLIN_PASS" = None ->
  OptAuthEnv ∈ Auth c ->
  exists err,
    NewAuthInfo env (Auth c) = (None, Some err) /\
    Authenticate env c requestId = Returns ((None, Some err), c) /\
    (exists pre op post a1,
        Auth c = pre ++ op :: post /\
        applyOptions env pre draft = (Some a1, None) /\
        (op env a1).2 = Some err) /\
    (Auth c = [OptAuthEnv] -> err = missingEnvError env).
Proof.
  intros Hmiss Hin.
  destruct (applyOptions_failing_member (Auth c) OptAuthEnv draft Hin) as [err Herr].
  { intros a. exists (missingEnvError env). rewrite OptAuthEnv_missing by exact Hmiss.
    reflexivity. }
  exists err. split; [exact Herr |]. split; [| split].
  - unfold Authenticate, Authenticate_over, NewAuthInfo.
    rewrite Herr. reflexivity.
  - apply applyOptions_error_split. exact Herr.
  - intros Hsole. rewrite Hsole in Herr. simpl in Herr.
    rewrite OptAuthEnv_missing in Herr by exact Hmiss. congruence.
Qed.

(** What [Exec] does on a live socket that takes the write. *)
Lemma Exec_sends c ws req message :
  Ws c = Some ws ->
  GraphSONSerializer req = Ok message ->
  (WriteMessage ws message).1 = None ->
  Exec env c req = ReadResponse env (withWs c (Some (WriteMessage ws message).2)) /\
  sent (WriteMessage ws message).2 = sent ws ++ [message] /\
  inbox (WriteMessage ws message).2 = inbox ws.
Proof.
  intros Hws Hser Hw. unfold Exec, Exec_over. rewrite Hser, Hws.
  destruct (WriteMessage ws message) as [werr ws'] eqn:HW. simpl in *. subst werr.
  split; [reflexivity |].
  unfold WriteMessage in HW.
  destruct (wfaults ws) as [|[e|] fs]; simplify_eq; simpl; auto.
Qed.

(** C3. Once the credential options have produced an [AuthInfo],
    [Authenticate] executes one request: its identifier is the
    challenge's, its processor and operation are the fixed pair, and
    the only argument set is the base64 encoding of a zero byte, the
    bytes of the user, a zero byte and the bytes of the password. On a
    live socket that takes the write, the serialized request is what
    is appended to the bytes sent. *)
Theorem Authenticate_replay_envelope c requestId auth :
  NewAuthInfo env (Auth c) = (Some auth, None) ->
  let authReq :=
    {| RequestId := requestId;
       Processor := "trasversal";
       Op := "authentication";
       Args := {| Gremlin := "";
                  Sasl := base64_EncodeToString
                            (x00 :: bytes_of (User auth)
                                 ++ x00 :: bytes_of (Pass auth)) |} |} in
  Authenticate env c requestId = Exec env c authReq /\
  (forall ws message,
      Ws c = Some ws ->
      GraphSONSerializer authReq = Ok message ->
      (WriteMessage ws message).1 = None ->
      Authenticate env c requestId
      = ReadResponse env (withWs c (Some (WriteMessage ws message).2)) /\
      sent (WriteMessage ws message).2 = sent ws ++ [message]).
Proof.
  intros Hauth authReq.
  assert (Authenticate env c requestId = Exec env c authReq) as Heq.
  { unfold Authenticate, Authenticate_over. rewrite Hauth.
    unfold saslBlob, authReq. reflexivity. }
  split; [exact Heq |].
  intros ws message Hws Hser Hw. rewrite Heq.
  destruct (Exec_sends c ws authReq message Hws Hser Hw) as (? & ? & _).
  split; assumption.
Qed.

(** The challenge branch of the read loop is a call of [Authenticate]
    on the session as the read left it. *)
Lemma ReadResponse_challenge c ws message res rest :
  Ws c = Some ws ->
  inbox ws = Ok message :: rest ->
  json_Unmarshal_Response message = Ok (Some res) ->
  Code (Status res) = StatusAuthenticate ->
  ReadResponse env c
  = Authenticate env (withWs c (Some (withInbox ws rest))) (ResponseId res).
Proof.
  intros Hws Hinbox Hres Hcode.
  unfold ReadResponse at 1. rewrite Hws, Hinbox. simpl. rewrite Hres, Hcode.
  switch_status.
  unfold Authenticate, Authenticate_over, Exec_over. simpl.
  repeat case_match; try reflexivity.
  unfold ReadResponse. simpl.
  match goal with
  | HW : WriteMessage _ _ = (_, ?w) |- _ =>
      assert (inbox w = rest) as ->; [| reflexivity];
      unfold WriteMessage in HW; simpl in HW;
      repeat case_match; simplify_eq; reflexivity
  end.
Qed.

End AuthFacts.

(** ** Reconnecting *)

Section ConnectionFacts.
Context `{Externals}.
Variable env : Env.

Lemma Reconnect_failure c urlStr net e :
  ws_answer net urlStr = Err e ->
  Reconnect c urlStr net = ((Some e, withWs c None), logDial net (wsDial urlStr)).
Proof. intros Hdial. unfold Reconnect, Dial. rewrite Hdial. reflexivity. Qed.

(** A successful [Reconnect] replaces the socket handle by the new
    socket and returns no error. *)
Lemma Reconnect_success c urlStr net ws :
  ws_answer net urlStr = Ok ws ->
  Reconnect c urlStr net = ((None, withWs c (Some ws)), logDial net (wsDial urlStr)).
Proof. intros Hdial. unfold Reconnect, Dial. rewrite Hdial. reflexivity. Qed.


(** On a session without a socket [Exec] returns only if the request
    does not serialize; otherwise the write dereferences the nil
    handle. *)
Lemma Exec_nil_socket c req :
  Ws c = None ->
  Exec env c req
  = match GraphSONSerializer req with
    | Err err => Returns ((None, Some err), c)
    | Ok _ => Panics
    end.
Proof. intros Hws. unfold Exec, Exec_over. rewrite Hws. reflexivity. Qed.

(** C8, as the code has it. After a [Reconnect] whose dial fails, the
    error of the dial is returned and the session holds the nil socket;
    an [Exec] of a request that serializes then does not return an
    error: it panics on the nil handle. *)
Theorem Exec_after_failed_Reconnect c urlStr net e req message :
  ws_answer net urlStr = Err e ->
  GraphSONSerializer req = Ok message ->
  (Reconnect c urlStr net).1.1 = Some e /\
  Ws (Reconnect c urlStr net).1.2 = None /\
  Exec env (Reconnect c urlStr net).1.2 req = Panics.
Proof.
  intros Hdial Hser. rewrite (Reconnect_failure _ _ _ _ Hdial). simpl.
  repeat split. rewrite Exec_nil_socket by reflexivity. rewrite Hser. reflexivity.
Qed.


(** A probe that does not return leaves [MaintainConnection] that way. *)
Lemma MaintainConnection_no_return c urlStr net :
  ExecQuery env c "g.V().limit(0)" = Panics ->
  MaintainConnection env c urlStr net = Panics.
Proof. intros Hprobe. unfold MaintainConnection. rewrite Hprobe. reflexivity. Qed.

End ConnectionFacts.

(** ** The registry *)

Section ClusterFacts.
Context `{Externals}.

Lemma parseEach_stops prep pre bad post us e servers :
  Forall2 (fun v u => url_Parse (prep v) = Ok u) pre us ->
  url_Parse (prep bad) = Err e ->
  parseEach prep (pre ++ bad :: post) servers = (servers ++ us, Some e).
Proof.
  intros Hpre Hbad. revert servers.
  induction Hpre as [|v u vs us Hv _ IH]; intros servers; simpl.
  - rewrite Hbad, app_nil_r. reflexivity.
  - rewrite Hv, IH, <- app_assoc. reflexivity.
Qed.

Lemma parseEach_all prep entries us servers :
  Forall2 (fun v u => url_Parse (prep v) = Ok u) entries us ->
  parseEach prep entries servers = (servers ++ us, None).
Proof.
  intros Hall. revert servers.
  induction Hall as [|v u vs us Hv _ IH]; intros servers; simpl.
  - rewrite app_nil_r. reflexivity.
  - rewrite Hv, IH, <- app_assoc. reflexivity.
Qed.

(** C2, as the code has it. When [NewCluster] is given addresses and
    one of them does not parse, it returns the error of the first such
    entry, and the registry, whatever it held before, then holds the
    addresses parsed from the entries before that one, in order. *)
Theorem NewCluster_failure_keeps_parsed_prefix pre bad post us e env servers :
  Forall2 (fun v u => url_Parse v = Ok u) pre us ->
  url_Parse bad = Err e ->
  NewCluster (pre ++ bad :: post) env servers = (us, Some e).
Proof.
  intros Hpre Hbad. unfold NewCluster.
  rewrite decide_False by (rewrite length_app; simpl; lia).
  apply (parseEach_stops (fun v => v) pre bad post us e [] Hpre Hbad).
Qed.

(** X17. With addresses that all parse, [NewCluster] returns no error and
    the registry, whatever it held, is replaced by their parsed addresses
    in the order given. *)
Lemma NewCluster_success s us env servers :
  s <> [] ->
  Forall2 (fun v u => url_Parse v = Ok u) s us ->
  NewCluster s env servers = (us, None).
Proof.
  intros Hne Hall. unfold NewCluster.
  rewrite decide_False by (destruct s; [congruence | simpl; lia]).
  apply (parseEach_all (fun v => v) s us [] Hall).
Qed.

Lemma tcp_answer_attempts net hosts :
  tcp_answer (attempts net hosts) = tcp_answer net.
Proof. revert net. induction hosts as [|h hs IH]; intros net; simpl; [|rewrite IH]; reflexivity. Qed.

Lemma dials_attempts net hosts :
  dials (attempts net hosts) = dials net ++ (tcpDial <$> hosts).
Proof.
  revert net. induction hosts as [|h hs IH]; intros net; simpl.
  - rewrite app_nil_r. reflexivity.
  - rewrite IH. simpl. rewrite <- app_assoc. reflexivity.
Qed.

Lemma attempts_app net hs1 hs2 :
  attempts net (hs1 ++ hs2) = attempts (attempts net hs1) hs2.
Proof. apply foldl_app. Qed.

Lemma dialFirst_skips pre rest net :
  Forall (unreachable net) pre ->
  dialFirst (pre ++ rest) net = dialFirst rest (attempts net (Host <$> pre)).
Proof.
  intros Hpre. revert net Hpre.
  induction pre as [|p pre IH]; intros net Hpre; simpl; [reflexivity |].
  inversion Hpre as [|? ? [e He] Hrest]; subst.
  unfold DialTimeout. rewrite He. apply IH.
  eapply Forall_impl; [exact Hrest |]. intros s Hs. exact Hs.
Qed.

Lemma dialFirst_none servers net net' :
  dialFirst servers net = (None, net') -> Forall (unreachable net) servers.
Proof.
  revert net. induction servers as [|s rest IH]; intros net Hrun; simpl in Hrun.
  - constructor.
  - unfold DialTimeout in Hrun.
    destruct (tcp_answer net (Host s)) as [conn|e] eqn:Hs; [discriminate |].
    constructor; [exists e; exact Hs |].
    apply IH in Hrun. eapply Forall_impl; [exact Hrun |]. intros x Hx. exact Hx.
Qed.

(** C5. [CreateConnection] dials the servers of the registry in order.
    If a server answers and every server before it does not, it returns
    that server and its connection with no error, having dialled the
    servers up to that one and no other. It returns the error exactly
    when no server of the registry answers, and then every server has
    been dialled. *)
Theorem CreateConnection_first_reachable servers net :
  (forall pre s post conn,
      servers = pre ++ s :: post ->
      Forall (unreachable net) pre ->
      tcp_answer net (Host s) = Ok conn ->
      CreateConnection servers net
      = ((Some conn, Some s, None), attempts net (Host <$> pre ++ [s]))) /\
  ((CreateConnection servers net).1.2 <> None <-> Forall (unreachable net) servers) /\
  (Forall (unreachable net) servers ->
      CreateConnection servers net
      = ((None, None, Some errNoConnection), attempts net (Host <$> servers))).
Proof.
  assert (Hall : Forall (unreachable net) servers ->
                 dialFirst servers net = (None, attempts net (Host <$> servers))).
  { intros Hfail. rewrite <- (app_nil_r servers) at 1.
    rewrite (dialFirst_skips _ _ _ Hfail). reflexivity. }
  split; [| split].
  - intros pre s post conn -> Hpre Hs. unfold CreateConnection.
    rewrite (dialFirst_skips _ _ _ Hpre). simpl. unfold DialTimeout.
    rewrite tcp_answer_attempts, Hs.
    rewrite fmap_app, attempts_app. reflexivity.
  - unfold CreateConnection. split.
    + destruct (dialFirst servers net) as [[[conn s]|] net'] eqn:Hrun; simpl.
      * congruence.
      * intros _. eapply dialFirst_none. exact Hrun.
    + intros Hfail. rewrite (Hall Hfail). simpl. discriminate.
  - intros Hfail. unfold CreateConnection. rewrite (Hall Hfail). reflexivity.
Qed.

End ClusterFacts.

(** ** The decorator *)

Section TracingFacts.
Context `{TracingAPI} {S T : Type} `{!Gremlin_i S} `{!Tracer T}.

Lemma observe_deferFinish {A} span (tr : T) (r : Outcome (A * S)) :
  observe (deferFinish span tr r) = r.
Proof. destruct r as [[a s]| |]; reflexivity. Qed.

(** C9. For each of the three decorated methods and every input, what
    the decorator returns, and the state it leaves the wrapped
    component in, are those of the wrapped component called with the
    same context and argument: its value and its error as they are, its
    panic or its silence if it does not return. *)
Theorem GremlinTracer_transparent (g : GremlinTracer S T) ctx gremlinQuery interval :
  observe (GremlinTracer_ExecQueryF ctx gremlinQuery g)
  = ExecQueryF ctx gremlinQuery (next g) /\
  observe (GremlinTracer_StartMonitor ctx interval g)
  = StartMonitor ctx interval (next g) /\
  observe (GremlinTracer_Close ctx g) = Close ctx (next g).
Proof.
  unfold GremlinTracer_ExecQueryF, GremlinTracer_StartMonitor, GremlinTracer_Close.
  repeat split;
    match goal with
    | |- context [StartSpanFromParent ?c ?t ?m ?o] =>
        destruct (StartSpanFromParent c t m o) as [[span ctx'] tr]
    end;
    apply observe_deferFinish.
Qed.

End TracingFacts.

(** ** Worked runs against the reference collaborators *)

Section Runs.
Import Reference.



(** A lone success frame. *)
Lemma ReadResponse_first_success_verbatim_run :
  let ws := socket [frame "200|r|[4,5]"] in
  let c := session [] (inbox ws) in
  ReadResponse ∅ c
  = Returns ((Some (b "[4,5]"), None), withWs c (Some (withInbox ws []))).
Proof.
  intros ws c.
  apply (ReadResponse_first_success_verbatim ∅ c ws (b "200|r|[4,5]")
           {| ResponseId := "r"; Status := {| Code := 200; Message := "" |};
              Result := {| Data := Some (b "[4,5]") |} |} []);
    vm_compute; reflexivity.
Defined.

(** A batch cut short by a script evaluation error. *)
Lemma ReadResponse_error_nil_data_run :
  let c := session [] [frame "206|r|[1,2]"; frame "597|r|"] in
  exists data err c',
    ReadResponse ∅ c = Returns ((data, Some err), c') /\
    err = errorString "Script Evaluation Error" /\ data = None.
Proof.
  intros c. eexists _, _, _. split; [vm_compute; reflexivity |].
  split; [reflexivity |].
  eapply (ReadResponse_error_nil_data ∅ c). vm_compute. reflexivity.
Defined.

(** The challenge of request r7, with user and password given. *)
Lemma Authenticate_replay_envelope_run :
  let c := session [OptAuthUserPass "user" "pass"] [frame "200|r7|[4,5]"] in
  Authenticate ∅ c "r7"
  = Exec ∅ c {| RequestId := "r7"; Processor := "trasversal";
                Op := "authentication";
                Args := {| Gremlin := ""; Sasl := "AHVzZXIAcGFzcw==" |} |}.
Proof.
  intros c.
  pose proof (Authenticate_replay_envelope ∅ c "r7"
                {| ChallengeId := ""; User := "user"; Pass := "pass" |} eq_refl)
    as Henvelope.
  cbv zeta in Henvelope. destruct Henvelope as [Hexec _]. exact Hexec.
Defined.

(** The environment as the only source, GREMLIN_PASS unset. *)
Lemma Authenticate_env_credentials_missing_run :
  let env : Env := {[ "GREMLIN_USER" := "neo" ]} in
  let c := session [OptAuthEnv] [frame "200|r7|[4,5]"] in
  Authenticate env c "r7"
  = Returns ((None, Some (errorString "Variable GREMLIN_PASS is not set")), c).
Proof.
  intros env c.
  destruct (Authenticate_env_credentials_missing env c "r7")
    as (err & _ & Hrun & _ & Hsole).
  - right. reflexivity.
  - apply list_elem_of_In. left. reflexivity.
  - rewrite Hrun, (Hsole eq_refl). reflexivity.
Defined.

(** A dial that is refused, then a query. *)
Lemma Exec_after_failed_Reconnect_run :
  let c := session [] [frame "200|r|[4,5]"] in
  let r := Reconnect c "ws://b:8182" refused in
  r.1.1 = Some (netOpError "dial tcp: connection refused") /\
  Ws r.1.2 = None /\
  Exec ∅ r.1.2 probe = Panics.
Proof.
  intros c r.
  apply (Exec_after_failed_Reconnect ∅ c "ws://b:8182" refused
           (netOpError "dial tcp: connection refused") probe
           (b "eval||1cb704ed-0000-4000-8000-000000000001|g.V().limit(0)|"));
    reflexivity.
Defined.



(** An address that does not parse after one that does. *)
Lemma NewCluster_failure_keeps_parsed_prefix_run :
  NewCluster ["ws://a:8182"; ":bad"; "ws://b:8182"] ∅
             [{| Scheme := "ws"; Host := "old:8182"; Path := "" |}]
  = ([{| Scheme := "ws"; Host := "a:8182"; Path := "" |}],
     Some (foreignError "missing protocol scheme")).
Proof.
  apply (NewCluster_failure_keeps_parsed_prefix
           ["ws://a:8182"] ":bad" ["ws://b:8182"]).
  - repeat constructor.
  - reflexivity.
Defined.

(** The registry does hold the address parsed before the failure. *)
Lemma NewCluster_partial_commit : ~ NewCluster_commits_nothing_on_failure.
Proof.
  intros Hclaim.
  destruct (Hclaim ["ws://a:8182"; ":bad"] ∅ []) as [_ Hnone].
  - exists ":bad", (foreignError "missing protocol scheme").
    split; [set_solver | reflexivity].
  - apply (Hnone "ws://a:8182" {| Scheme := "ws"; Host := "a:8182"; Path := "" |}).
    + set_solver.
    + reflexivity.
    + vm_compute. left.
Qed.

(** The first server is down, the second answers. *)
Example CreateConnection_skips_unreachable :
  CreateConnection [{| Scheme := "ws"; Host := "a:8182"; Path := "" |};
                    {| Scheme := "ws"; Host := "b:8182"; Path := "" |}] answering
  = ((Some {| RemoteAddr := "b:8182" |},
      Some {| Scheme := "ws"; Host := "b:8182"; Path := "" |}, None),
     attempts answering ["a:8182"; "b:8182"]).
Proof. reflexivity. Qed.

(** An error of the wrapped component comes back through the decorator,
    and the span is finished all the same. *)
Example GremlinTracer_returns_inner_error :
  GremlinTracer_ExecQueryF (Some "caller", "") "g.V()"
    (NewGremlinTracer 0%nat ([] : list TraceEvent))
  = Returns (("", Some (errorString "server down")),
             {| next := 1%nat;
                tracer := [started "Gremlin.ExecQueryF"
                             [Tags [("type", "gremlin")]; ChildOf "caller"];
                           finished "Gremlin.ExecQueryF"] |}).
Proof. reflexivity. Qed.

End Runs.

(** * Further properties *)

(** ** The session across a call *)

Section SessionInvariant.
Context `{Externals}.
Variable env : Env.

Lemma WriteMessage_effect ws message :
  inbox (WriteMessage ws message).2 = inbox ws /\
  sent (WriteMessage ws message).2
  = sent ws ++ (if (WriteMessage ws message).1 is None then [message] else []).
Proof.
  unfold WriteMessage. destruct (wfaults ws) as [|[e|] fs]; simpl;
    rewrite ?app_nil_r; auto.
Qed.

Lemma readLoop_keeps frames :
  forall ws c inBatchMode dataItems r c',
    readLoop env frames ws c inBatchMode dataItems = Returns (r, c') ->
    exists written consumed ws',
      Remote c' = Remote c /\ Auth c' = Auth c /\
      VerboseLogging c' = VerboseLogging c /\
      Ws c' = Some ws' /\
      sent ws' = sent ws ++ written /\
      frames = consumed ++ inbox ws' /\
      (length written < length consumed)%nat.
Proof.
  induction frames as [|rd frames IH];
    intros ws c inBatchMode dataItems r c' Hrun; simpl in Hrun.
  - discriminate.
  - assert (Hstop : forall r0,
               Returns (r0, withWs c (Some (withInbox ws frames))) = Returns (r, c') ->
               exists written consumed ws',
                 Remote c' = Remote c /\ Auth c' = Auth c /\
                 VerboseLogging c' = VerboseLogging c /\
                 Ws c' = Some ws' /\
                 sent ws' = sent ws ++ written /\
                 rd :: frames = consumed ++ inbox ws' /\
                 (length written < length consumed)%nat).
    { intros r0 E. simplify_eq. exists [], [rd], (withInbox ws frames). simpl.
      rewrite app_nil_r. repeat split; auto. }
    assert (Hnext : forall ws1 c1 b1 agg1 pre,
               Remote c1 = Remote c -> Auth c1 = Auth c ->
               VerboseLogging c1 = VerboseLogging c ->
               sent ws1 = sent ws ++ pre -> (length pre <= 1)%nat ->
               readLoop env frames ws1 c1 b1 agg1 = Returns (r, c') ->
               exists written consumed ws',
                 Remote c' = Remote c /\ Auth c' = Auth c /\
                 VerboseLogging c' = VerboseLogging c /\
                 Ws c' = Some ws' /\
                 sent ws' = sent ws ++ written /\
                 rd :: frames = consumed ++ inbox ws' /\
                 (length written < length consumed)%nat).
    { intros ws1 c1 b1 agg1 pre E1 E2 E3 Hsent Hpre Hrest.
      destruct (IH _ _ _ _ _ _ Hrest)
        as (written & consumed & ws' & ? & ? & ? & ? & Hs & Hf & Hlen).
      exists (pre ++ written), (rd :: consumed), ws'.
      rewrite Hs, Hsent, <- app_assoc, length_app. simpl.
      repeat split; try congruence; try lia. }
    destruct rd as [message|err]; [| eapply Hstop; eassumption].
    destruct (json_Unmarshal_Response message) as [[res|]|err];
      [| discriminate | eapply Hstop; eassumption].
    repeat case_decide.
    + eapply Hstop; eassumption.
    + unfold Authenticate_over, Exec_over in Hrun. simpl in Hrun.
      destruct (NewAuthInfo env (Auth c)) as [[auth|] [err|]];
        try discriminate; try (eapply Hstop; eassumption).
      destruct (GraphSONSerializer _) as [message'|err];
        [| eapply Hstop; eassumption].
      pose proof (WriteMessage_effect (withInbox ws frames) message') as [Hin Hsent].
      destruct (WriteMessage (withInbox ws frames) message') as [[err|] ws2];
        simpl in *.
      * injection Hrun as _ <-. exists [], [Ok message], ws2. simpl.
        rewrite Hsent, Hin. repeat split; auto.
      * eapply (Hnext ws2 _ _ _ [message']); try exact Hrun; auto.
    + destruct (json_Unmarshal_items _) as [items|err];
        [| eapply Hstop; eassumption].
      eapply (Hnext _ _ _ _ []); try exact Hrun; simpl; auto.
      rewrite app_nil_r. reflexivity.
    + destruct inBatchMode; [| eapply Hstop; eassumption].
      destruct (json_Unmarshal_items _) as [items|err];
        [| eapply Hstop; eassumption].
      destruct (json_Marshal_items _); eapply Hstop; eassumption.
    + eapply Hstop; eassumption.
Qed.

(** X1. When [ReadResponse] returns, the session has its settings and a live
    socket; it has read at least one frame and written fewer messages
    than it has read frames. *)
Theorem ReadResponse_keeps_session c r c' :
  ReadResponse env c = Returns (r, c') ->
  exists written consumed,
    sessionAfter c c' written consumed /\
    (length written < length consumed)%nat.
Proof.
  unfold ReadResponse, sessionAfter. destruct (Ws c) as [ws|] eqn:Hws; [|discriminate].
  intros Hrun.
  destruct (readLoop_keeps _ _ _ _ _ _ _ Hrun)
    as (written & consumed & ws' & ? & ? & ? & Hws' & ? & ? & ?).
  exists written, consumed. rewrite Hws'. auto 10.
Qed.

Lemma Exec_settings c req r c' :
  Exec env c req = Returns (r, c') ->
  Remote c' = Remote c /\ Auth c' = Auth c /\ VerboseLogging c' = VerboseLogging c.
Proof.
  unfold Exec, Exec_over. intros Hrun.
  destruct (GraphSONSerializer req) as [message|err];
    [| injection Hrun as _ <-; auto].
  destruct (Ws c) as [ws|]; [|discriminate].
  destruct (WriteMessage ws message) as [[err|] ws2];
    [injection Hrun as _ <-; auto |].
  unfold ReadResponse in Hrun. simpl in Hrun.
  destruct (readLoop_keeps _ _ _ _ _ _ _ Hrun) as (? & ? & ? & ? & ? & ? & _).
  auto.
Qed.

(** X2. When [Exec] returns, the session has its settings, and a socket
    exactly if it had one; on a live socket it has written at most one
    message more than it has read frames. *)
Theorem Exec_keeps_session c req r c' :
  Exec env c req = Returns (r, c') ->
  exists written consumed,
    sessionAfter c c' written consumed /\
    (length written <= length consumed + 1)%nat.
Proof.
  unfold Exec, Exec_over, sessionAfter. intros Hrun.
  destruct (GraphSONSerializer req) as [message|err].
  - destruct (Ws c) as [ws|] eqn:Hws; [|discriminate].
    pose proof (WriteMessage_effect ws message) as [Hin Hsent].
    destruct (WriteMessage ws message) as [[err|] ws2]; simpl in *.
    + injection Hrun as _ <-. exists [], []. simpl. rewrite Hsent, Hin. auto 10.
    + unfold ReadResponse in Hrun. simpl in Hrun.
      destruct (readLoop_keeps _ _ _ _ _ _ _ Hrun)
        as (written & consumed & ws' & ? & ? & ? & Hws' & Hs & Hf & ?).
      exists ([message] ++ written), consumed. rewrite Hws', Hs, Hsent, <- Hin, Hf.
      rewrite <- app_assoc, length_app. simpl. repeat split; auto; lia.
  - injection Hrun as _ <-. exists [], []. destruct (Ws c) as [ws|]; simpl;
      rewrite ?app_nil_r; auto 10.
Qed.

End SessionInvariant.

(** ** The read loop, frame by frame *)

Section ReadLoopMore.
Context `{Externals}.
Variable env : Env.

Lemma WriteMessage_withInbox ws l message :
  WriteMessage (withInbox ws l) message
  = ((WriteMessage ws message).1, withInbox (WriteMessage ws message).2 l).
Proof. unfold WriteMessage. simpl. destruct (wfaults ws) as [|[e|] fs]; reflexivity. Qed.

Lemma readLoop_no_content message res rest ws c inBatchMode dataItems :
  json_Unmarshal_Response message = Ok (Some res) ->
  Code (Status res) = StatusNoContent ->
  readLoop env (Ok message :: rest) ws c inBatchMode dataItems
  = Returns ((None, None), withWs c (Some (withInbox ws rest))).
Proof.
  intros Hres Hcode. simpl. rewrite Hres, Hcode. switch_status. reflexivity.
Qed.

Lemma readLoop_other_status message res rest ws c inBatchMode dataItems :
  json_Unmarshal_Response message = Ok (Some res) ->
  Code (Status res) ∉
    [StatusNoContent; StatusAuthenticate; StatusPartialContent; StatusSuccess] ->
  readLoop env (Ok message :: rest) ws c inBatchMode dataItems
  = Returns ((None, Some (statusError c res)), withWs c (Some (withInbox ws rest))).
Proof.
  intros Hres Hcode. rewrite !elem_of_cons, elem_of_nil in Hcode.
  simpl. rewrite Hres. rewrite !decide_False by tauto. reflexivity.
Qed.

Lemma readLoop_challenge message res rest ws c inBatchMode dataItems :
  json_Unmarshal_Response message = Ok (Some res) ->
  Code (Status res) = StatusAuthenticate ->
  readLoop env (Ok message :: rest) ws c inBatchMode dataItems
  = Authenticate env (withWs c (Some (withInbox ws rest))) (ResponseId res).
Proof.
  intros Hres Hcode. simpl. rewrite Hres, Hcode. switch_status.
  unfold Authenticate, Authenticate_over, Exec_over. simpl.
  destruct (NewAuthInfo env (Auth c)) as [[auth|] [err|]]; try reflexivity.
  destruct (GraphSONSerializer _) as [wire|err]; [| reflexivity].
  rewrite WriteMessage_withInbox.
  destruct (WriteMessage ws wire) as [[err|] ws2]; reflexivity.
Qed.

Lemma readLoop_bad_items message res rest ws c inBatchMode dataItems e :
  json_Unmarshal_Response message = Ok (Some res) ->
  json_Unmarshal_items (Data (Result res)) = Err e ->
  Code (Status res) = StatusPartialContent \/
  (Code (Status res) = StatusSuccess /\ inBatchMode = true) ->
  readLoop env (Ok message :: rest) ws c inBatchMode dataItems
  = Returns ((None, Some e), withWs c (Some (withInbox ws rest))).
Proof.
  intros Hres Hitems [Hcode|[Hcode ->]]; simpl; rewrite Hres, Hcode;
    switch_status; rewrite Hitems; reflexivity.
Qed.

(** X3. A no-content frame ends the call with nil data and no error, also
    after partial-content frames: what they delivered is dropped. *)
Theorem ReadResponse_no_content_discards c ws messages batches last res rest :
  Ws c = Some ws ->
  inbox ws = (Ok <$> messages) ++ Ok last :: rest ->
  Forall2 (frameOf StatusPartialContent) messages batches ->
  json_Unmarshal_Response last = Ok (Some res) ->
  Code (Status res) = StatusNoContent ->
  ReadResponse env c
  = Returns ((None, None), withWs c (Some (withInbox ws rest))).
Proof.
  intros Hws Hinbox Hparts Hres Hcode. unfold ReadResponse.
  rewrite Hws, Hinbox, (readLoop_partials _ _ _ Hparts).
  eapply readLoop_no_content; eassumption.
Qed.

(** X4. A frame whose status is none of the four known ones ends the call
    with nil data and an error: the generic one for a code the table does
    not have, the table's message when logging is not verbose, and
    otherwise the code, the message and the server's detail. *)
Theorem ReadResponse_status_error c ws messages batches last res rest :
  Ws c = Some ws ->
  inbox ws = (Ok <$> messages) ++ Ok last :: rest ->
  Forall2 (frameOf StatusPartialContent) messages batches ->
  json_Unmarshal_Response last = Ok (Some res) ->
  Code (Status res) ∉
    [StatusNoContent; StatusAuthenticate; StatusPartialContent; StatusSuccess] ->
  exists err,
    ReadResponse env c
    = Returns ((None, Some err), withWs c (Some (withInbox ws rest))) /\
    (ErrorMsg !! Code (Status res) = None ->
       err = errorString "An unknown error occured") /\
    (forall msg, ErrorMsg !! Code (Status res) = Some msg ->
       VerboseLogging c = false -> err = errorString msg) /\
    (forall msg, ErrorMsg !! Code (Status res) = Some msg ->
       VerboseLogging c = true ->
       err = errorString
               (pretty (Code (Status res)) +:+ " error: " +:+ msg
                +:+ ". See additional details below:"
                +:+ String (Ascii.ascii_of_nat 10) "Message: "
                +:+ Message (Status res))).
Proof.
  intros Hws Hinbox Hparts Hres Hcode. exists (statusError c res). split.
  - unfold ReadResponse.
    rewrite Hws, Hinbox, (readLoop_partials _ _ _ Hparts).
    apply readLoop_other_status; assumption.
  - unfold statusError. repeat split.
    + intros ->. reflexivity.
    + intros msg -> ->. reflexivity.
    + intros msg -> ->. reflexivity.
Qed.

(** X5. A read that fails, or a message that is not a response, ends the
    call with that very error and nil data, also in the middle of a
    batch. *)
Theorem ReadResponse_read_failure c ws messages batches rd e rest :
  Ws c = Some ws ->
  inbox ws = (Ok <$> messages) ++ rd :: rest ->
  Forall2 (frameOf StatusPartialContent) messages batches ->
  rd = Err e \/ (exists message, rd = Ok message /\
                                 json_Unmarshal_Response message = Err e) ->
  ReadResponse env c
  = Returns ((None, Some e), withWs c (Some (withInbox ws rest))).
Proof.
  intros Hws Hinbox Hparts Hrd. unfold ReadResponse.
  rewrite Hws, Hinbox, (readLoop_partials _ _ _ Hparts).
  destruct Hrd as [->|(message & -> & Hbad)]; simpl; [| rewrite Hbad]; reflexivity.
Qed.

(** X6. After a partial-content frame, a success frame whose data is not a
    list of items is an error, although the same frame arriving first
    would be returned as it stands. *)
Theorem ReadResponse_batch_bad_success c ws messages batches last res e rest :
  Ws c = Some ws ->
  inbox ws = (Ok <$> messages) ++ Ok last :: rest ->
  messages <> [] ->
  Forall2 (frameOf StatusPartialContent) messages batches ->
  json_Unmarshal_Response last = Ok (Some res) ->
  Code (Status res) = StatusSuccess ->
  json_Unmarshal_items (Data (Result res)) = Err e ->
  ReadResponse env c
  = Returns ((None, Some e), withWs c (Some (withInbox ws rest))) /\
  ReadResponse env (withWs c (Some (withInbox ws (Ok last :: rest))))
  = Returns ((Data (Result res), None), withWs c (Some (withInbox ws rest))).
Proof.
  intros Hws Hinbox Hne Hparts Hres Hcode Hitems. split.
  - unfold ReadResponse.
    rewrite Hws, Hinbox, (readLoop_partials _ _ _ Hparts).
    destruct messages; [congruence |].
    eapply readLoop_bad_items; eauto.
  - unfold ReadResponse. simpl.
    rewrite Hres, Hcode. switch_status. reflexivity.
Qed.


(** X8. A challenge in the middle of a batch hands the call over to
    [Authenticate]: the items aggregated so far play no part in the
    result. *)
Theorem ReadResponse_challenge_drops_batch c ws messages batches last res rest :
  Ws c = Some ws ->
  inbox ws = (Ok <$> messages) ++ Ok last :: rest ->
  Forall2 (frameOf StatusPartialContent) messages batches ->
  json_Unmarshal_Response last = Ok (Some res) ->
  Code (Status res) = StatusAuthenticate ->
  ReadResponse env c
  = Authenticate env (withWs c (Some (withInbox ws rest))) (ResponseId res).
Proof.
  intros Hws Hinbox Hparts Hres Hcode. unfold ReadResponse.
  rewrite Hws, Hinbox, (readLoop_partials _ _ _ Hparts).
  apply readLoop_challenge; assumption.
Qed.

(** X9. The whole handshake: a challenge, answered with the credentials of
    the session on a socket that takes the write, then a success frame.
    The call returns the data of the success frame as it stands, and the
    one message written is the serialized authentication request. *)
Theorem ReadResponse_handshake c ws challenge res1 answer res2 rest auth wire :
  Ws c = Some ws ->
  inbox ws = Ok challenge :: Ok answer :: rest ->
  json_Unmarshal_Response challenge = Ok (Some res1) ->
  Code (Status res1) = StatusAuthenticate ->
  NewAuthInfo env (Auth c) = (Some auth, None) ->
  GraphSONSerializer
    {| RequestId := ResponseId res1; Processor := "trasversal";
       Op := "authentication";
       Args := {| Gremlin := "";
                  Sasl := base64_EncodeToString (saslBlob auth) |} |} = Ok wire ->
  (WriteMessage ws wire).1 = None ->
  json_Unmarshal_Response answer = Ok (Some res2) ->
  Code (Status res2) = StatusSuccess ->
  exists ws',
    ReadResponse env c = Returns ((Data (Result res2), None), withWs c (Some ws')) /\
    sent ws' = sent ws ++ [wire] /\
    inbox ws' = rest.
Proof.
  intros Hws Hinbox Hres1 Hcode1 Hauth Hwire Hwrite Hres2 Hcode2.
  exists (withInbox (WriteMessage ws wire).2 rest). split; [| split].
  - unfold ReadResponse at 1. rewrite Hws, Hinbox.
    rewrite (readLoop_challenge _ _ _ _ _ _ _ Hres1 Hcode1).
    unfold Authenticate, Authenticate_over, Exec_over. simpl.
    rewrite Hauth, Hwire, WriteMessage_withInbox.
    destruct (WriteMessage ws wire) as [werr ws2]. simpl in *. subst werr.
    unfold ReadResponse. simpl.
    rewrite Hres2, Hcode2. switch_status. reflexivity.
  - simpl. pose proof (WriteMessage_effect ws wire) as [_ Hsent].
    rewrite Hwrite in Hsent. exact Hsent.
  - reflexivity.
Qed.

Lemma readLoop_verbosity frames :
  forall ws c v inBatchMode dataItems,
    outline (readLoop env frames ws (SetLogVerbosity c v) inBatchMode dataItems)
    = outline (readLoop env frames ws c inBatchMode dataItems).
Proof.
  induction frames as [|rd frames IH]; intros ws c v inBatchMode dataItems;
    simpl; [reflexivity |].
  destruct rd as [message|err]; [| reflexivity].
  destruct (json_Unmarshal_Response message) as [[res|]|err]; try reflexivity.
  repeat case_decide; try reflexivity.
  - unfold Authenticate_over, Exec_over. simpl.
    destruct (NewAuthInfo env (Auth c)) as [[auth|] [err|]]; try reflexivity.
    destruct (GraphSONSerializer _) as [wire|err]; [| reflexivity].
    destruct (WriteMessage (withInbox ws frames) wire) as [[err|] ws2];
      [reflexivity |].
    simpl. apply (IH ws2 (withWs c (Some ws2)) v).
  - destruct (json_Unmarshal_items _) as [items|err]; [| reflexivity].
    apply (IH _ (withWs c (Some (withInbox ws frames))) v).
  - destruct inBatchMode; [| reflexivity].
    destruct (json_Unmarshal_items _) as [items|err]; [| reflexivity].
    destruct (json_Marshal_items _); reflexivity.
Qed.

(** X10. The verbosity of a session changes the text of a status error and
    nothing else: the data returned, whether an error is returned, and
    the state of the socket are the same whatever it is set to. *)
Theorem ReadResponse_verbosity c v :
  outline (ReadResponse env (SetLogVerbosity c v)) = outline (ReadResponse env c).
Proof.
  unfold ReadResponse. simpl. destruct (Ws c) as [ws|]; [| reflexivity].
  apply readLoop_verbosity.
Qed.

End ReadLoopMore.

(** ** Credentials *)

Section AuthMore.
Context `{Externals}.
Variable env : Env.

Lemma applyOptions_app pre post auth a :
  applyOptions env pre auth = (Some a, None) ->
  applyOptions env (pre ++ post) auth = applyOptions env post a.
Proof.
  revert auth. induction pre as [|op pre IH]; intros auth Hpre; simpl in *.
  - congruence.
  - destruct (op env auth) as [auth' [e|]]; [discriminate | auto].
Qed.

(** X11. The source configured last is the one whose user and password are
    kept: after options that succeed, an explicit user and password, or
    the two environment variables when both are set, replace whatever
    the earlier options had put in the draft. *)
Theorem NewAuthInfo_last_source_wins options a :
  applyOptions env options draft = (Some a, None) ->
  (forall user pass,
      NewAuthInfo env (options ++ [OptAuthUserPass user pass])
      = (Some {| ChallengeId := ChallengeId a; User := user; Pass := pass |}, None)) /\
  (forall user pass,
      LookupEnv env "GREMLIN_USER" = Some user ->
      LookupEnv env "GREMLIN_PASS" = Some pass ->
      NewAuthInfo env (options ++ [OptAuthEnv])
      = (Some {| ChallengeId := ChallengeId a; User := user; Pass := pass |}, None)).
Proof.
  intros Hopts. unfold NewAuthInfo. split.
  - intros user pass. rewrite (applyOptions_app _ _ _ _ Hopts). reflexivity.
  - intros user pass Hu Hp. rewrite (applyOptions_app _ _ _ _ Hopts). simpl.
    unfold OptAuthEnv. rewrite Hu, Hp. reflexivity.
Qed.

Lemma applyOptions_challenge options :
  Forall (fun op => op = OptAuthEnv \/
                    exists user pass, op = OptAuthUserPass user pass) options ->
  forall auth a,
    applyOptions env options auth = (Some a, None) ->
    ChallengeId a = ChallengeId auth.
Proof.
  induction 1 as [|op options Hop _ IH]; intros auth a Hrun; simpl in Hrun.
  - congruence.
  - destruct Hop as [->|(user & pass & ->)].
    + unfold OptAuthEnv in Hrun.
      destruct (LookupEnv env "GREMLIN_USER"); [| discriminate].
      destruct (LookupEnv env "GREMLIN_PASS"); [| discriminate].
      apply IH in Hrun. exact Hrun.
    + apply IH in Hrun. exact Hrun.
Qed.

(** X12. The two credential sources of the package never set the challenge
    identifier of the [AuthInfo]: it stays empty, and the identifier of
    the replayed request is the one [Authenticate] is called with. *)
Theorem NewAuthInfo_leaves_challenge options a :
  Forall (fun op => op = OptAuthEnv \/
                    exists user pass, op = OptAuthUserPass user pass) options ->
  NewAuthInfo env options = (Some a, None) ->
  ChallengeId a = "".
Proof.
  intros Hopts Hrun. apply (applyOptions_challenge options Hopts draft a Hrun).
Qed.

Lemma bytes_of_inj s1 s2 : bytes_of s1 = bytes_of s2 -> s1 = s2.
Proof.
  unfold bytes_of. intros E.
  rewrite <- (String.string_of_list_byte_of_string s1).
  rewrite <- (String.string_of_list_byte_of_string s2).
  rewrite E. reflexivity.
Qed.

Lemma split_at_zero (l1 l2 r1 r2 : list byte) :
  x00 ∉ l1 -> x00 ∉ l2 ->
  l1 ++ x00 :: r1 = l2 ++ x00 :: r2 -> l1 = l2 /\ r1 = r2.
Proof.
  revert l2. induction l1 as [|a l1 IH]; intros [|b l2] H1 H2 E; simpl in E.
  - injection E as ->. auto.
  - injection E as <- _. exfalso. apply H2. left.
  - injection E as -> _. exfalso. apply H1. left.
  - injection E as -> E.
    destruct (IH l2) as [-> ->]; auto.
    + intros Hin. apply H1. right. exact Hin.
    + intros Hin. apply H2. right. exact Hin.
Qed.

(** X13. The credential blob determines the credentials, as long as the user
    name holds no zero byte: two users or two passwords that differ
    give two blobs that differ. *)
Theorem saslBlob_injective a1 a2 :
  x00 ∉ bytes_of (User a1) ->
  x00 ∉ bytes_of (User a2) ->
  saslBlob a1 = saslBlob a2 ->
  User a1 = User a2 /\ Pass a1 = Pass a2.
Proof.
  unfold saslBlob. simpl. intros H1 H2 E. injection E as E.
  destruct (split_at_zero _ _ _ _ H1 H2 E) as [Hu Hp].
  split; apply bytes_of_inj; assumption.
Qed.

End AuthMore.

(** ** Connections *)

Section ConnectionMore.
Context `{Externals}.
Variable env : Env.

(** X14. [NewVerboseGremlinConnection] always returns, with what
    [NewGremlinConnection] returns for the same address and options on
    the same network, the verbosity of the connection set as asked. *)
Theorem NewVerboseGremlinConnection_sets_verbosity urlStr v options net :
  NewVerboseGremlinConnection urlStr v options net
  = Returns
      (((fun c => SetLogVerbosity c v) <$> (NewGremlinConnection urlStr options net).1.1,
        (NewGremlinConnection urlStr options net).1.2),
       (NewGremlinConnection urlStr options net).2).
Proof.
  unfold NewVerboseGremlinConnection, NewGremlinConnection, Dial.
  destruct (url_Parse urlStr) as [r|e]; [| reflexivity].
  destruct (ws_answer net urlStr) as [ws|e]; reflexivity.
Qed.

(** X15. [ExecQuery] can fail before anything is read: when the query cannot
    be built or the request cannot be serialized the session is left
    untouched, and when the socket refuses the write nothing is added to
    the bytes sent and no frame is consumed. Each time the error is
    returned as it is, with nil data. *)
Theorem ExecQuery_fails_before_reading c query e :
  (Query query = Err e -> ExecQuery env c query = Returns ((None, Some e), c)) /\
  (forall req,
      Query query = Ok req -> GraphSONSerializer req = Err e ->
      ExecQuery env c query = Returns ((None, Some e), c)) /\
  (forall req wire ws,
      Query query = Ok req -> GraphSONSerializer req = Ok wire ->
      Ws c = Some ws -> (WriteMessage ws wire).1 = Some e ->
      exists ws',
        ExecQuery env c query = Returns ((None, Some e), withWs c (Some ws')) /\
        sent ws' = sent ws /\ inbox ws' = inbox ws).
Proof.
  unfold ExecQuery, Exec, Exec_over. split; [| split].
  - intros ->. reflexivity.
  - intros req -> ->. reflexivity.
  - intros req wire ws -> -> -> Hw. exists (WriteMessage ws wire).2.
    pose proof (WriteMessage_effect ws wire) as [Hin Hsent].
    destruct (WriteMessage ws wire) as [werr ws2]. simpl in *. subst werr.
    rewrite app_nil_r in Hsent. auto.
Qed.

Lemma Exec_ok_live c req data c' :
  Exec env c req = Returns ((data, None), c') -> is_Some (Ws c').
Proof.
  unfold Exec, Exec_over. intros Hrun.
  destruct (GraphSONSerializer req) as [wire|err]; [| discriminate].
  destruct (Ws c) as [ws|]; [| discriminate].
  destruct (WriteMessage ws wire) as [[err|] ws2]; [discriminate |].
  unfold ReadResponse in Hrun. simpl in Hrun.
  destruct (readLoop_keeps _ _ _ _ _ _ _ _ Hrun)
    as (? & ? & ws' & _ & _ & _ & Hws' & _).
  rewrite Hws'. eauto.
Qed.

Lemma ExecQuery_settings c query r c' :
  ExecQuery env c query = Returns (r, c') ->
  Remote c' = Remote c /\ Auth c' = Auth c /\ VerboseLogging c' = VerboseLogging c.
Proof.
  unfold ExecQuery. destruct (Query query) as [req|err]; intros Hrun.
  - eapply Exec_settings. exact Hrun.
  - injection Hrun as _ <-. auto.
Qed.

(** X16. Whenever [MaintainConnection] returns, the session has the settings
    it had and at most one dial, of the given address, was added to the
    log; when it returns nil, the session holds a live socket. *)
Theorem MaintainConnection_keeps_session c urlStr net err c' net' :
  MaintainConnection env c urlStr net = Returns ((err, c'), net') ->
  Remote c' = Remote c /\ Auth c' = Auth c /\
  VerboseLogging c' = VerboseLogging c /\
  (net' = net \/ net' = logDial net (wsDial urlStr)) /\
  (err = None -> is_Some (Ws c')).
Proof.
  unfold MaintainConnection. intros Hrun.
  destruct (ExecQuery env c "g.V().limit(0)") as [[[data perr] c1]| |] eqn:Hprobe;
    try discriminate.
  destruct (ExecQuery_settings _ _ _ _ Hprobe) as (HR & HA & HV).
  simpl in Hrun. destruct perr as [e|].
  - destruct (isNetOpError e); simpl in Hrun.
    + unfold Reconnect, Dial in Hrun.
      destruct (ws_answer net urlStr) as [ws|e'];
        injection Hrun as <- <- <-; simpl; repeat split; eauto; discriminate.
    + injection Hrun as <- <- <-. repeat split; auto. discriminate.
  - injection Hrun as <- <- <-. repeat split; auto. intros _.
    unfold ExecQuery in Hprobe. destruct (Query _); [| discriminate].
    eapply Exec_ok_live. exact Hprobe.
Qed.

End ConnectionMore.

(** ** The registry and the choice of a server *)

Section ClusterMore.
Context `{Externals}.

Lemma parseEach_ok prep entries :
  forall servers servers',
    parseEach prep entries servers = (servers', None) ->
    exists us,
      servers' = servers ++ us /\
      Forall2 (fun v u => url_Parse (prep v) = Ok u) entries us.
Proof.
  induction entries as [|v entries IH]; intros servers servers' Hrun; simpl in Hrun.
  - injection Hrun as <-. exists []. rewrite app_nil_r. auto.
  - destruct (url_Parse (prep v)) as [u|e] eqn:Hv; [| discriminate].
    destruct (IH _ _ Hrun) as (us & -> & Hus).
    exists (u :: us). rewrite <- app_assoc. auto.
Qed.

(** X18. With no argument, [NewCluster] takes the value of GREMLIN_SERVERS,
    trimmed, splits it at the commas, and trims and parses each entry:
    when all parse, the registry is replaced by their addresses, in the
    order of the value. *)
Theorem NewCluster_from_environment env servers value entries us :
  strings_TrimSpace (Getenv env "GREMLIN_SERVERS") = value ->
  value <> "" ->
  strings_Split value "," = entries ->
  entries <> [] ->
  Forall2 (fun v u => url_Parse (strings_TrimSpace v) = Ok u) entries us ->
  NewCluster [] env servers = (us, None).
Proof.
  intros Hvalue Hne Hsplit Hentries Hall. unfold NewCluster. simpl.
  rewrite Hvalue, decide_False by exact Hne.
  unfold SplitServers. rewrite Hsplit.
  rewrite decide_False by (destruct entries; [congruence | simpl; lia]).
  apply (parseEach_all strings_TrimSpace entries us [] Hall).
Qed.

(** X19. A configuration that succeeds leaves a registry that is not empty and
    holds nothing but parsed addresses. *)
Theorem NewCluster_ok_nonempty s env servers servers' :
  NewCluster s env servers = (servers', None) ->
  servers' <> [] /\
  Forall (fun u => exists v, url_Parse v = Ok u) servers'.
Proof.
  unfold NewCluster. intros Hrun.
  assert (Hloop : forall prep entries,
             entries <> [] ->
             parseEach prep entries [] = (servers', None) ->
             servers' <> [] /\
             Forall (fun u => exists v, url_Parse v = Ok u) servers').
  { intros prep entries Hne Hloop.
    destruct (parseEach_ok _ _ _ _ Hloop) as (us & -> & Hus). simpl. split.
    - destruct Hus; [congruence | discriminate].
    - clear Hloop Hne Hrun. induction Hus; constructor; eauto. }
  case_decide as Hs.
  - case_decide; [discriminate |].
    unfold SplitServers in Hrun. case_decide as Hlen; [discriminate |].
    eapply Hloop; [| exact Hrun].
    intros E. rewrite E in Hlen. simpl in Hlen. lia.
  - eapply Hloop; [| exact Hrun]. intros E. rewrite E in Hs. auto.
Qed.

Lemma unreachable_logDial net d s :
  unreachable (logDial net d) s <-> unreachable net s.
Proof. reflexivity. Qed.

Lemma dialFirst_some servers :
  forall net conn s net',
    dialFirst servers net = (Some (conn, s), net') ->
    exists pre post,
      servers = pre ++ s :: post /\
      Forall (unreachable net) pre /\
      tcp_answer net (Host s) = Ok conn /\
      net' = attempts net (Host <$> pre ++ [s]).
Proof.
  induction servers as [|x rest IH]; intros net conn s net' Hrun; simpl in Hrun.
  - discriminate.
  - unfold DialTimeout in Hrun.
    destruct (tcp_answer net (Host x)) as [c|e] eqn:Hx.
    + injection Hrun as <- <- <-. exists [], rest. auto.
    + destruct (IH _ _ _ _ Hrun) as (pre & post & -> & Hpre & Hs & ->).
      exists (x :: pre), post. repeat split; auto.
      constructor; [exists e; exact Hx |].
      eapply Forall_impl; [exact Hpre |]. intros y Hy. exact Hy.
Qed.

(** X20. What [CreateConnection] returns is one of two things: a connection
    with the server it was dialled at and no error, that server being in
    the registry after servers that all failed, and nothing dialled
    beyond it; or no connection, no server and the error, every server
    of the registry having been dialled and having failed. *)
Theorem CreateConnection_sound servers net conn server err net' :
  CreateConnection servers net = ((conn, server, err), net') ->
  (exists c s pre post,
      conn = Some c /\ server = Some s /\ err = None /\
      servers = pre ++ s :: post /\
      Forall (unreachable net) pre /\
      tcp_answer net (Host s) = Ok c /\
      net' = attempts net (Host <$> pre ++ [s])) \/
  (conn = None /\ server = None /\ err = Some errNoConnection /\
   Forall (unreachable net) servers /\
   net' = attempts net (Host <$> servers)).
Proof.
  unfold CreateConnection. intros Hrun.
  destruct (dialFirst servers net) as [[[c s]|] net1] eqn:Hloop;
    injection Hrun as <- <- <- <-.
  - left. destruct (dialFirst_some _ _ _ _ _ Hloop) as (pre & post & ? & ? & ? & ?).
    exists c, s, pre, post. auto 10.
  - right. pose proof (dialFirst_none _ _ _ Hloop) as Hfail.
    repeat split; auto.
    rewrite <- (app_nil_r servers) in Hloop at 1.
    rewrite (dialFirst_skips _ _ _ Hfail) in Hloop. simpl in Hloop. congruence.
Qed.

End ClusterMore.

(** ** Spans *)

Section TracingMore.
Context `{TracingAPI} {S T : Type} `{!Gremlin_i S} `{!Tracer T}.

Lemma StartSpanFromParent_options ctx (tr : T) method :
  StartSpanFromParent ctx tr method [Tags [("type", "gremlin")]]
  = (((StartSpan tr method (spanOptions ctx)).1,
      ContextWithSpan ctx (StartSpan tr method (spanOptions ctx)).1),
     (StartSpan tr method (spanOptions ctx)).2).
Proof.
  unfold StartSpanFromParent, spanOptions.
  destruct (SpanFromContext ctx); simpl;
    match goal with |- context [StartSpan ?a ?b ?c] => destruct (StartSpan a b c) end;
    reflexivity.
Qed.

(** X21. A decorated call that returns has started one span and finished it:
    the span is named by the operation name of the context, or the
    method's own name, is tagged, and is a child of the span of the
    context when there is one. *)
Theorem GremlinTracer_span_lifecycle (g : GremlinTracer S T) ctx :
  let after method :=
    Finish (StartSpan (tracer g) method (spanOptions ctx)).1
           (StartSpan (tracer g) method (spanOptions ctx)).2 in
  (forall gremlinQuery r s',
      ExecQueryF ctx gremlinQuery (next g) = Returns (r, s') ->
      GremlinTracer_ExecQueryF ctx gremlinQuery g
      = Returns (r, {| next := s';
                       tracer := after (CoalesceStrings
                                   [OpNameFromContext ctx; "Gremlin.ExecQueryF"]) |})) /\
  (forall interval r s',
      StartMonitor ctx interval (next g) = Returns (r, s') ->
      GremlinTracer_StartMonitor ctx interval g
      = Returns (r, {| next := s';
                       tracer := after (CoalesceStrings
                                   [OpNameFromContext ctx; "Gremlin.StartMonitor"]) |})) /\
  (forall r s',
      Close ctx (next g) = Returns (r, s') ->
      GremlinTracer_Close ctx g
      = Returns (r, {| next := s';
                       tracer := after (CoalesceStrings
                                   [OpNameFromContext ctx; "Gremlin.Close"]) |})).
Proof.
  intros after. unfold after.
  unfold GremlinTracer_ExecQueryF, GremlinTracer_StartMonitor, GremlinTracer_Close.
  repeat split; intros; rewrite StartSpanFromParent_options;
    match goal with Hrun : _ = Returns _ |- _ => rewrite Hrun end; reflexivity.
Qed.

Lemma observe_decorated (g : GremlinTracer S T) ctx :
  (forall gremlinQuery,
      observe (GremlinTracer_ExecQueryF ctx gremlinQuery g)
      = ExecQueryF ctx gremlinQuery (next g)) /\
  (forall interval,
      observe (GremlinTracer_StartMonitor ctx interval g)
      = StartMonitor ctx interval (next g)) /\
  observe (GremlinTracer_Close ctx g) = Close ctx (next g).
Proof.
  unfold GremlinTracer_ExecQueryF, GremlinTracer_StartMonitor, GremlinTracer_Close.
  repeat split; intros;
    rewrite StartSpanFromParent_options; apply observe_deferFinish.
Qed.

End TracingMore.

Section TracingNested.
Context `{TracingAPI} {S T T2 : Type} `{!Gremlin_i S} `{!Tracer T} `{!Tracer T2}.

(** X22. A decorator around a decorator is as transparent as one: the values
    returned and the state of the innermost component are those of that
    component called directly. *)
Theorem GremlinTracer_nested_transparent
    (g : GremlinTracer (GremlinTracer S T) T2) ctx gremlinQuery interval :
  observe (observe (ExecQueryF ctx gremlinQuery g))
  = ExecQueryF ctx gremlinQuery (next (next g)) /\
  observe (observe (StartMonitor ctx interval g))
  = StartMonitor ctx interval (next (next g)) /\
  observe (observe (Close ctx g)) = Close ctx (next (next g)).
Proof.
  destruct (observe_decorated g ctx) as (Ho1 & Ho2 & Ho3).
  destruct (observe_decorated (next g) ctx) as (Hi1 & Hi2 & Hi3).
  change (ExecQueryF ctx gremlinQuery g)
    with (GremlinTracer_ExecQueryF ctx gremlinQuery g).
  change (StartMonitor ctx interval g)
    with (GremlinTracer_StartMonitor ctx interval g).
  change (Close ctx g) with (GremlinTracer_Close ctx g).
  rewrite Ho1, Ho2, Ho3.
  split; [apply Hi1 | split; [apply Hi2 | apply Hi3]].
Qed.

End TracingNested.

(** ** Further worked runs *)

Section MoreRuns.
Import Reference.

Ltac run := vm_compute; reflexivity.
Ltac partial_frames :=
  repeat constructor; eexists; (split; [| split]); vm_compute; reflexivity.
Ltac no_zero :=
  vm_compute; let Hin := fresh in
  intros Hin; repeat (apply elem_of_cons in Hin as [Hin|Hin]; [discriminate |]);
  inversion Hin.

Lemma ReadResponse_keeps_session_run :
  exists r c' written consumed,
    ReadResponse ∅ challenged = Returns (r, c') /\
    sessionAfter challenged c' written consumed /\
    (length written < length consumed)%nat.
Proof.
  eexists _, _.
  assert (Hrun : ReadResponse ∅ challenged = Returns ((Some (b "[3]"), None),
            withWs challenged
              (Some {| inbox := [frame "204|r8|"]; wfaults := [];
                       sent := [b "authentication|trasversal|r7||AHVzZXIAcGFzcw=="] |})))
    by run.
  destruct (ReadResponse_keeps_session ∅ challenged _ _ Hrun)
    as (written & consumed & Hafter & Hlen).
  exists written, consumed. split; [exact Hrun | split; assumption].
Defined.

Lemma Exec_keeps_session_run :
  exists r c' written consumed,
    Exec ∅ challenged probe = Returns (r, c') /\
    sessionAfter challenged c' written consumed /\
    (length written <= length consumed + 1)%nat.
Proof.
  assert (Hrun : Exec ∅ challenged probe = Returns ((Some (b "[3]"), None),
            withWs challenged
              (Some {| inbox := [frame "204|r8|"]; wfaults := [];
                       sent := [b "eval||1cb704ed-0000-4000-8000-000000000001|g.V().limit(0)|";
                                b "authentication|trasversal|r7||AHVzZXIAcGFzcw=="] |})))
    by run.
  destruct (Exec_keeps_session ∅ challenged probe _ _ Hrun)
    as (written & consumed & Hafter & Hlen).
  eexists _, _, written, consumed. split; [exact Hrun | split; assumption].
Defined.

Lemma ReadResponse_no_content_discards_run :
  let ws := socket [frame "206|r|[1,2]"; frame "204|r|"; frame "200|r|[3]"] in
  let c := session [] (inbox ws) in
  ReadResponse ∅ c
  = Returns ((None, None), withWs c (Some (withInbox ws [frame "200|r|[3]"]))).
Proof.
  intros ws c.
  eapply (ReadResponse_no_content_discards ∅ c ws [b "206|r|[1,2]"]
            [[b "1"; b "2"]] (b "204|r|")).
  - reflexivity.
  - reflexivity.
  - partial_frames.
  - run.
  - reflexivity.
Defined.

Lemma ReadResponse_status_error_run :
  let ws := socket [frame "206|r|[1,2]"; frame "597|r|"] in
  let c := session [] (inbox ws) in
  ReadResponse ∅ c
  = Returns ((None, Some (errorString "Script Evaluation Error")),
             withWs c (Some (withInbox ws []))).
Proof.
  intros ws c.
  destruct (ReadResponse_status_error ∅ c ws [b "206|r|[1,2]"] [[b "1"; b "2"]]
              (b "597|r|")
              {| ResponseId := "r"; Status := {| Code := 597; Message := "" |};
                 Result := {| Data := None |} |} [])
    as (err & Hrun & _ & Hshort & _).
  - reflexivity.
  - reflexivity.
  - partial_frames.
  - run.
  - change (597 ∉ [204; 407; 206; 200]).
    rewrite !elem_of_cons, elem_of_nil. lia.
  - rewrite Hrun, (Hshort "Script Evaluation Error"); reflexivity.
Defined.

Lemma ReadResponse_read_failure_run :
  let ws := socket [frame "206|r|[1,2]"; Err (netOpError "read: connection reset")] in
  let c := session [] (inbox ws) in
  ReadResponse ∅ c
  = Returns ((None, Some (netOpError "read: connection reset")),
             withWs c (Some (withInbox ws []))).
Proof.
  intros ws c.
  eapply (ReadResponse_read_failure ∅ c ws [b "206|r|[1,2]"] [[b "1"; b "2"]]).
  - reflexivity.
  - reflexivity.
  - partial_frames.
  - left. reflexivity.
Defined.

Lemma ReadResponse_batch_bad_success_run :
  let ws := socket [frame "206|r|[1,2]"; frame "200|r|done"] in
  let c := session [] (inbox ws) in
  ReadResponse ∅ c
  = Returns ((None, Some (foreignError "cannot unmarshal into a slice")),
             withWs c (Some (withInbox ws []))) /\
  ReadResponse ∅ (withWs c (Some (withInbox ws [frame "200|r|done"])))
  = Returns ((Some (b "done"), None), withWs c (Some (withInbox ws []))).
Proof.
  intros ws c.
  apply (ReadResponse_batch_bad_success ∅ c ws [b "206|r|[1,2]"] [[b "1"; b "2"]]
           (b "200|r|done")
           {| ResponseId := "r"; Status := {| Code := 200; Message := "" |};
              Result := {| Data := Some (b "done") |} |}).
  - reflexivity.
  - reflexivity.
  - discriminate.
  - partial_frames.
  - run.
  - reflexivity.
  - run.
Defined.


Lemma ReadResponse_challenge_drops_batch_run :
  let ws := socket (inbox (default (socket []) (Ws challenged))) in
  ReadResponse ∅ challenged
  = Authenticate ∅
      (withWs challenged
         (Some (withInbox ws [frame "200|r7|[3]"; frame "204|r8|"]))) "r7".
Proof.
  intros ws.
  eapply (ReadResponse_challenge_drops_batch ∅ challenged ws [b "206|r7|[1,2]"]
            [[b "1"; b "2"]] (b "407|r7|")
            {| ResponseId := "r7"; Status := {| Code := 407; Message := "" |};
               Result := {| Data := None |} |}).
  - reflexivity.
  - reflexivity.
  - partial_frames.
  - run.
  - reflexivity.
Defined.

Lemma ReadResponse_handshake_run :
  let ws := socket [frame "407|r7|"; frame "200|r7|[4,5]"] in
  let c := session [OptAuthUserPass "user" "pass"] (inbox ws) in
  exists ws',
    ReadResponse ∅ c = Returns ((Some (b "[4,5]"), None), withWs c (Some ws')) /\
    sent ws' = [b "authentication|trasversal|r7||AHVzZXIAcGFzcw=="] /\
    inbox ws' = [].
Proof.
  intros ws c.
  apply (ReadResponse_handshake ∅ c ws (b "407|r7|")
           {| ResponseId := "r7"; Status := {| Code := 407; Message := "" |};
              Result := {| Data := None |} |}
           (b "200|r7|[4,5]")
           {| ResponseId := "r7"; Status := {| Code := 200; Message := "" |};
              Result := {| Data := Some (b "[4,5]") |} |}
           [] {| ChallengeId := ""; User := "user"; Pass := "pass" |}
           (b "authentication|trasversal|r7||AHVzZXIAcGFzcw=="));
    try reflexivity; run.
Defined.

Lemma NewAuthInfo_last_source_wins_run :
  NewAuthInfo withCredentials ([OptAuthEnv] ++ [OptAuthUserPass "admin" "s3cret"])
  = (Some {| ChallengeId := ""; User := "admin"; Pass := "s3cret" |}, None) /\
  NewAuthInfo withCredentials ([OptAuthUserPass "admin" "s3cret"] ++ [OptAuthEnv])
  = (Some {| ChallengeId := ""; User := "neo"; Pass := "trinity" |}, None).
Proof.
  split.
  - apply (NewAuthInfo_last_source_wins withCredentials [OptAuthEnv]
             {| ChallengeId := ""; User := "neo"; Pass := "trinity" |}).
    reflexivity.
  - apply (NewAuthInfo_last_source_wins withCredentials
             [OptAuthUserPass "admin" "s3cret"]
             {| ChallengeId := ""; User := "admin"; Pass := "s3cret" |});
      reflexivity.
Defined.

Lemma NewAuthInfo_leaves_challenge_run :
  exists a,
    NewAuthInfo withCredentials [OptAuthUserPass "admin" "s3cret"; OptAuthEnv]
    = (Some a, None) /\ ChallengeId a = "".
Proof.
  eexists. split; [reflexivity |].
  eapply (NewAuthInfo_leaves_challenge withCredentials
            [OptAuthUserPass "admin" "s3cret"; OptAuthEnv]).
  - constructor; [right; eauto |].
    constructor; [left; reflexivity | constructor].
  - reflexivity.
Defined.

Lemma saslBlob_injective_run :
  let a1 := {| ChallengeId := "r7"; User := "user"; Pass := "pass" |} in
  let a2 := {| ChallengeId := ""; User := "user"; Pass := "pass" |} in
  saslBlob a1 = saslBlob a2 /\ User a1 = User a2 /\ Pass a1 = Pass a2.
Proof.
  intros a1 a2. split; [reflexivity |].
  apply (saslBlob_injective a1 a2); [no_zero | no_zero | reflexivity].
Defined.

Lemma MaintainConnection_keeps_session_run :
  let c := {| Remote := None;
              Ws := Some {| inbox := [];
                            wfaults := [Some (netOpError "write: broken pipe")];
                            sent := [] |};
              Auth := [OptAuthEnv]; VerboseLogging := true |} in
  exists c',
    MaintainConnection ∅ c "ws://b:8182" answering
    = Returns ((None, c'), logDial answering (wsDial "ws://b:8182")) /\
    Auth c' = [OptAuthEnv] /\ VerboseLogging c' = true /\ is_Some (Ws c').
Proof.
  intros c. eexists. split; [run |].
  destruct (MaintainConnection_keeps_session ∅ c "ws://b:8182" answering None
              (withWs c (Some (socket [])))
              (logDial answering (wsDial "ws://b:8182")))
    as (_ & HA & HV & _ & Hlive).
  - reflexivity.
  - split; [exact HA | split; [exact HV | apply Hlive; reflexivity]].
Defined.

Lemma NewCluster_success_run :
  NewCluster ["ws://a:8182"; "ws://b:8182/gremlin"] ∅
             [{| Scheme := "ws"; Host := "old:8182"; Path := "" |}]
  = ([{| Scheme := "ws"; Host := "a:8182"; Path := "" |};
      {| Scheme := "ws"; Host := "b:8182"; Path := "/gremlin" |}], None).
Proof.
  apply NewCluster_success.
  - discriminate.
  - repeat constructor.
Defined.

Lemma NewCluster_from_environment_run :
  NewCluster [] withServers [{| Scheme := "ws"; Host := "old:8182"; Path := "" |}]
  = ([{| Scheme := "ws"; Host := "a:8182"; Path := "" |};
      {| Scheme := "ws"; Host := "b:8182"; Path := "" |}], None).
Proof.
  apply (NewCluster_from_environment withServers _ "ws://a:8182, ws://b:8182"
           ["ws://a:8182"; " ws://b:8182"]).
  - run.
  - discriminate.
  - run.
  - discriminate.
  - repeat constructor.
Defined.

Lemma NewCluster_ok_nonempty_run :
  exists servers,
    NewCluster [] withServers [] = (servers, None) /\
    servers <> [] /\ Forall (fun u => exists v, url_Parse v = Ok u) servers.
Proof.
  eexists. split; [run |].
  eapply (NewCluster_ok_nonempty [] withServers []). run.
Defined.

Lemma CreateConnection_sound_run :
  let a := {| Scheme := "ws"; Host := "a:8182"; Path := "" |} in
  let b := {| Scheme := "ws"; Host := "b:8182"; Path := "" |} in
  exists pre post,
    [a; b; a] = pre ++ b :: post /\ Forall (unreachable answering) pre.
Proof.
  intros a b.
  destruct (CreateConnection_sound [a; b; a] answering
              (Some {| RemoteAddr := "b:8182" |}) (Some b) None
              (attempts answering ["a:8182"; "b:8182"]) eq_refl)
    as [(c & s & pre & post & _ & Hs & _ & Hsplit & Hpre & _)|(Hnone & _)].
  - injection Hs as <-. exists pre, post. split; assumption.
  - discriminate.
Defined.

End MoreRuns.
